(** * Sparta [aws/cloudwatch]: the CloudWatch Embedded Metric Format encoder

    A shallow embedding of [structured_metric.go] and the properties of its
    encode and publish protocol.

    Conventions of the embedding:
    - a Go [map[string]V] is an optional [gmap string V] ([None] is the nil
      map); the order in which [range] visits a map is not fixed by the
      language, so every [range] takes a seed that selects the order;
    - [*EmbeddedMetric] is a location in a store of objects;
    - [time.Now()] is a clock reading passed to the encoder;
    - [os.Stdout], the target of [fmt.Printf], is a byte stream in the state;
      an [io.Writer] is a type class;
    - [encoding/json] is modelled in two steps, a JSON document and its
      rendering to bytes. *)

From Stdlib Require Import ZArith Lia Ascii String.
From stdpp Require Import base gmap list strings sorting pretty.

Set Warnings "-register-all".

Local Open Scope Z_scope.
Local Open Scope string_scope.
Local Open Scope list_scope.

(* ===================================================================== *)
(** ** Go runtime pieces the package relies on *)
(* ===================================================================== *)

(** A Go map: [None] is the nil map. *)
Abbreviation GoMap V := (option (gmap string V)).

(** [len(m)] *)
Definition go_len {V} (m : GoMap V) : nat := from_option size 0%nat m.

(** The entries of a map, in the order of the underlying representation. *)
Definition go_entries {V} (m : GoMap V) : list (string * V) :=
  from_option map_to_list [] m.

(** An iteration order selected by a seed: each number of the seed picks the
    next entry among those not yet visited; the entries left when the seed
    is used up follow in their given order. *)
Fixpoint pick {A} (seed : list nat) (l : list A) : list A :=
  match seed with
  | [] => l
  | k :: seed' =>
      let i := (k `mod` length l)%nat in
      match l !! i with
      | Some x => x :: pick seed' (delete i l)
      | None => l
      end
  end.

(** [for k, v := range m]: the entries of [m], each once, in the order the
    seed selects. *)
Definition range {V} (seed : list nat) (m : GoMap V) : list (string * V) :=
  pick seed (go_entries m).

(** [strings.Split(s, sep)] for a one-byte separator. *)
Fixpoint Split (s : string) (sep : ascii) : list string :=
  match s with
  | EmptyString => [EmptyString]
  | String c r =>
      if Ascii.eqb c sep then EmptyString :: Split r sep
      else match Split r sep with
           | p :: ps => String c p :: ps
           | [] => [String c EmptyString]
           end
  end.

(** [strings.Contains(s, sep)] for a one-byte [sep]. *)
Fixpoint Contains (s : string) (sep : ascii) : bool :=
  match s with
  | EmptyString => false
  | String c r => Ascii.eqb c sep || Contains r sep
  end.

(** Results of fallible calls. *)
Inductive result (E A : Type) : Type :=
| Ok (a : A)
| Err (e : E).
Arguments Ok {E A} a.
Arguments Err {E A} e.

Definition result_map {E A B} (f : A → B) (r : result E A) : result E B :=
  match r with Ok a => Ok (f a) | Err e => Err e end.

Definition result_bind {E A B} (r : result E A) (f : A → result E B) : result E B :=
  match r with Ok a => f a | Err e => Err e end.

Definition is_Ok {E A} (r : result E A) : bool :=
  match r with Ok _ => true | Err _ => false end.

(* ===================================================================== *)
(** ** The generated EMF schema types *)
(* ===================================================================== *)

Module emf.

(** Modelled from the spec: the declarations of [emfAWS],
    [emfAWSCloudWatchMetricsElem] and [emfAWSCloudWatchMetricsElemMetricsElem]
    are not part of the sources at hand; the fields are those
    [MarshalJSON] assigns, with the JSON names of the documented shape. *)
Record emfAWSCloudWatchMetricsElemMetricsElem := mkMetricsElem {
  Name : string;
  Unit : string
}.

Record emfAWSCloudWatchMetricsElem := mkElem {
  Dimensions : list (list string);
  Metrics : list emfAWSCloudWatchMetricsElemMetricsElem;
  Namespace : string
}.

Record emfAWS := mkAWS {
  CloudWatchMetrics : list emfAWSCloudWatchMetricsElem;
  Timestamp : Z
}.

End emf.

(* ===================================================================== *)
(** ** Values held in [interface{}] and their JSON encoding *)
(* ===================================================================== *)

(** The dynamic values the package stores under [interface{}]: the scalars
    and slices a caller supplies, a value of a kind [encoding/json] rejects
    (a func), and the [*emfAWS] the encoder itself stores. This is a
    fragment of what a caller may store: floats, maps, structs and values
    with a [MarshalJSON] method of their own, whose errors carry a text of
    their choice, are not part of it. *)
Inductive GoValue : Type :=
| GoNil
| GoBool (b : bool)
| GoInt (n : Z)
| GoString (s : string)
| GoSlice (vs : list GoValue)
| GoFunc
| GoEmfAWS (a : emf.emfAWS).

(** A JSON document. Object members keep their order of appearance. *)
Inductive json : Type :=
| JNull
| JBool (b : bool)
| JNumber (n : Z)
| JString (s : string)
| JArray (items : list json)
| JObject (members : list (string * json)).

(** Errors of [json.Marshal]. *)
Inductive MarshalError : Type :=
| UnsupportedTypeError (typ : string)
| MarshalerError (typ : string) (err : MarshalError).

(** The [Error()] method. *)
Fixpoint Error (e : MarshalError) : string :=
  match e with
  | UnsupportedTypeError typ => "json: unsupported type: " +:+ typ
  | MarshalerError typ err =>
      "json: error calling MarshalJSON for type " +:+ typ +:+ ": " +:+ Error err
  end.

Definition encode_MetricsElem (m : emf.emfAWSCloudWatchMetricsElemMetricsElem) : json :=
  JObject [("Name", JString (emf.Name m)); ("Unit", JString (emf.Unit m))].

Definition encode_Elem (e : emf.emfAWSCloudWatchMetricsElem) : json :=
  JObject [("Namespace", JString (emf.Namespace e));
           ("Dimensions", JArray ((λ g, JArray (JString <$> g)) <$> emf.Dimensions e));
           ("Metrics", JArray (encode_MetricsElem <$> emf.Metrics e))].

Definition encode_emfAWS (a : emf.emfAWS) : json :=
  JObject [("Timestamp", JNumber (emf.Timestamp a));
           ("CloudWatchMetrics", JArray (encode_Elem <$> emf.CloudWatchMetrics a))].

(** All the items of a list encode, or the first error is returned. *)
Fixpoint encode_all {A} (enc : A → result MarshalError json) (l : list A)
  : result MarshalError (list json) :=
  match l with
  | [] => Ok []
  | x :: l' =>
      result_bind (enc x) (λ j, result_map (cons j) (encode_all enc l'))
  end.

(** The document [json.Marshal] produces for a value. *)
Fixpoint encode (v : GoValue) : result MarshalError json :=
  match v with
  | GoNil => Ok JNull
  | GoBool b => Ok (JBool b)
  | GoInt n => Ok (JNumber n)
  | GoString s => Ok (JString s)
  | GoSlice vs => result_map JArray (encode_all encode vs)
  | GoFunc => Err (UnsupportedTypeError "func()")
  | GoEmfAWS a => Ok (encode_emfAWS a)
  end.

(** [json.Marshal] writes the keys of a map in sorted order. *)
Definition key_le {A} (x y : string * A) : Prop := String.le x.1 y.1.

Global Instance key_le_dec {A} : RelDecision (@key_le A).
Proof. intros x y. unfold key_le. apply _. Defined.

Definition sort_keys {A} (l : list (string * A)) : list (string * A) :=
  merge_sort key_le l.

Definition encode_member (kv : string * GoValue) : result MarshalError (string * json) :=
  result_map (pair kv.1) (encode kv.2).

Fixpoint encode_members (l : list (string * GoValue))
  : result MarshalError (list (string * json)) :=
  match l with
  | [] => Ok []
  | kv :: l' =>
      result_bind (encode_member kv) (λ m, result_map (cons m) (encode_members l'))
  end.

(** The document for a [map[string]interface{}]. *)
Definition encode_map (m : gmap string GoValue) : result MarshalError json :=
  result_map JObject (encode_members (sort_keys (map_to_list m))).

(** *** Rendering a document to bytes *)

Definition dquote : ascii := ascii_of_nat 34.
Definition backslash : ascii := ascii_of_nat 92.

Definition hex_digit (n : nat) : ascii :=
  default "0"%char (get n "0123456789abcdef").

(** [\u00XX] *)
Definition escape_u00 (c : ascii) : string :=
  let n := nat_of_ascii c in
  String backslash
    (String "u" (String "0" (String "0"
      (String (hex_digit (n / 16)) (String (hex_digit (n `mod` 16)) ""))))).

(** The escaping of [json.Marshal]: the quote and the backslash are
    preceded by a backslash, line feed, carriage return and tab are written
    [\n], [\r], [\t], the remaining control bytes and the bytes [<], [>] and
    [&] are written [\u00XX]; every other byte is copied (strings are taken
    to be valid UTF-8 without U+2028 and U+2029). *)
Definition escape_byte (c : ascii) : string :=
  let n := nat_of_ascii c in
  if (n =? 34)%nat then String backslash (String dquote "")
  else if (n =? 92)%nat then String backslash (String backslash "")
  else if (n =? 10)%nat then String backslash "n"
  else if (n =? 13)%nat then String backslash "r"
  else if (n =? 9)%nat then String backslash "t"
  else if (n <? 32)%nat || (n =? 60)%nat || (n =? 62)%nat || (n =? 38)%nat
       then escape_u00 c
  else String c "".

Fixpoint escape (s : string) : string :=
  match s with
  | EmptyString => EmptyString
  | String c r => escape_byte c +:+ escape r
  end.

Definition quote (s : string) : string :=
  String dquote (escape s +:+ String dquote "").

Definition join (sep : string) (l : list string) : string :=
  match l with
  | [] => ""
  | x :: l' => foldl (λ acc y, acc +:+ sep +:+ y) x l'
  end.

Fixpoint render (j : json) : string :=
  match j with
  | JNull => "null"
  | JBool true => "true"
  | JBool false => "false"
  | JNumber n => pretty n
  | JString s => quote s
  | JArray items => "[" +:+ join "," (render <$> items) +:+ "]"
  | JObject members =>
      "{" +:+ join "," ((λ kv, quote kv.1 +:+ ":" +:+ render kv.2) <$> members) +:+ "}"
  end.

(** [json.Marshal(m)] for a [map[string]interface{}]. *)
Definition json_Marshal_map (m : gmap string GoValue) : result MarshalError string :=
  result_map render (encode_map m).

(** Reading a document: the member of an object, the items of an array. *)
Fixpoint assoc {A} (k : string) (l : list (string * A)) : option A :=
  match l with
  | [] => None
  | (k', v) :: l' => if decide (k' = k) then Some v else assoc k l'
  end.

Definition member (k : string) (j : json) : option json :=
  match j with JObject ms => assoc k ms | _ => None end.

Definition keys (j : json) : list string :=
  match j with JObject ms => ms.*1 | _ => [] end.

(* ===================================================================== *)
(** ** Streams *)
(* ===================================================================== *)

(** The error of a failed write, by its [%#v] form. *)
Inductive WriteError : Type := mkWriteError (gosyntax : string).

Definition GoSyntax (e : WriteError) : string :=
  match e with mkWriteError s => s end.

(** [io.Writer]: a write returns the writer's next state and its error. *)
Class Writer (W : Type) := Write : W → string → W * option WriteError.

(** The streams a publish call can reach: the process's standard output and
    the writer the caller holds. Writes to [os.Stdout] are taken to
    succeed. *)
Record World (W : Type) := mkWorld {
  Stdout : string;
  writer : W
}.
Arguments mkWorld {W} _ _.
Arguments Stdout {W} _.
Arguments writer {W} _.

(** The [io.Writer] argument of a call: [os.Stdout] itself, or the caller's
    writer. *)
Inductive Sink : Type := os_Stdout | caller_writer.

(** [fmt.Printf] of an already formatted text. *)
Definition fmt_Printf {W} (text : string) (w : World W) : World W :=
  mkWorld (Stdout w +:+ text) (writer w).

(** [io.WriteString(sink, s)] *)
Definition io_WriteString {W} `{Writer W} (sink : Sink) (s : string) (w : World W)
  : World W * option WriteError :=
  match sink with
  | os_Stdout => (mkWorld (Stdout w +:+ s) (writer w), None)
  | caller_writer =>
      let '(x, err) := Write (writer w) s in (mkWorld (Stdout w) x, err)
  end.

(** An in-memory buffer such as [bytes.Buffer]: every write is appended. *)
Inductive Buffer : Type := mkBuffer (content : string).

Definition content (b : Buffer) : string := match b with mkBuffer s => s end.

Global Instance Buffer_Writer : Writer Buffer :=
  λ b s, (mkBuffer (content b +:+ s), None).

(** A writer that rejects every write with [syscall.EBADF] and records the
    attempts. *)
Inductive Closed : Type := mkClosed (attempts : list string).

Global Instance Closed_Writer : Writer Closed :=
  λ c s, match c with mkClosed l => (mkClosed (l ++ [s]), Some (mkWriteError "0x9")) end.

(* ===================================================================== *)
(** ** The environment snapshot *)
(* ===================================================================== *)

(** The body of the loop of [init]: an entry is kept when it splits into
    exactly two parts on the equals sign. *)
Definition init_step (envMap : gmap string string) (eachValue : string)
  : gmap string string :=
  match Split eachValue "="%char with
  | [k; v] => <[k := v]> envMap
  | _ => envMap
  end.

(** [init]: [envMap] as built from [os.Environ()]. *)
Definition init (envVars : list string) : gmap string string :=
  foldl init_step ∅ envVars.

(** [envMap[name]]: the empty string when the name is missing. *)
Definition env_index (envMap : gmap string string) (name : string) : string :=
  default "" (envMap !! name).

(* ===================================================================== *)
(** ** The data model *)
(* ===================================================================== *)

Definition MetricUnit := string.

Definition UnitSeconds : MetricUnit := "Seconds".
Definition UnitMicroseconds : MetricUnit := "Microseconds".
Definition UnitMilliseconds : MetricUnit := "Milliseconds".
Definition UnitBytes : MetricUnit := "Bytes".
Definition UnitKilobytes : MetricUnit := "Kilobytes".
Definition UnitMegabytes : MetricUnit := "Megabytes".
Definition UnitGigabytes : MetricUnit := "Gigabytes".
Definition UnitTerabytes : MetricUnit := "Terabytes".
Definition UnitBits : MetricUnit := "Bits".
Definition UnitKilobits : MetricUnit := "Kilobits".
Definition UnitMegabits : MetricUnit := "Megabits".
Definition UnitGigabits : MetricUnit := "Gigabits".
Definition UnitTerabits : MetricUnit := "Terabits".
Definition UnitPercent : MetricUnit := "Percent".
Definition UnitCount : MetricUnit := "Count".
Definition UnitBytesPerSecond : MetricUnit := "Bytes/Second".
Definition UnitKilobytesPerSecond : MetricUnit := "Kilobytes/Second".
Definition UnitMegabytesPerSecond : MetricUnit := "Megabytes/Second".
Definition UnitGigabytesPerSecond : MetricUnit := "Gigabytes/Second".
Definition UnitTerabytesPerSecond : MetricUnit := "Terabytes/Second".
Definition UnitBitsPerSecond : MetricUnit := "Bits/Second".
Definition UnitKilobitsPerSecond : MetricUnit := "Kilobits/Second".
Definition UnitMegabitsPerSecond : MetricUnit := "Megabits/Second".
Definition UnitGigabitsPerSecond : MetricUnit := "Gigabits/Second".
Definition UnitTerabitsPerSecond : MetricUnit := "Terabits/Second".
Definition UnitCountPerSecond : MetricUnit := "Count/Second".
Definition UnitNone : MetricUnit := "None".

Record MetricValue := mkMetricValue {
  Value : GoValue;
  Unit : MetricUnit
}.

Record MetricDirective := mkMetricDirective {
  Dimensions : GoMap string;
  Metrics : GoMap MetricValue;
  namespace : string
}.

(** The directives are held in creation order. A directive is kept by value:
    the encoder only reads the state it has at the time of the call. *)
Record EmbeddedMetric := mkEmbeddedMetric {
  metrics : list MetricDirective;
  properties : GoMap GoValue
}.

(** The [EmbeddedMetric] objects of the program, by address. *)
Abbreviation Heap := (gmap nat EmbeddedMetric).

(** What a call draws from outside the program state: the clock reading
    ([time.Now().UnixNano()]) and the order of each [range] over a map. *)
Record Run := mkRun {
  now : Z;
  seed_additional : list nat;
  seed_properties : list nat;
  seed_directives : list (list nat * list nat)
}.

(* ===================================================================== *)
(** ** The builder *)
(* ===================================================================== *)

(** [em.WithProperty(key, value)]: the object at [em] is updated in place
    and the receiver is returned. [None] is the nil-pointer panic. *)
Definition WithProperty (em : nat) (key : string) (value : GoValue) (h : Heap)
  : option (nat * Heap) :=
  obj ← h !! em;
  let props := match properties obj with
               | None => ∅
               | Some m => m
               end in
  Some (em, <[em := mkEmbeddedMetric (metrics obj) (Some (<[key := value]> props))]> h).

(** [em.NewMetricDirective(namespace, dimensions)]: the new directive is
    appended; the handle returned is its position in [em.metrics]. *)
Definition NewMetricDirective (em : nat) (namespace : string)
    (dimensions : GoMap string) (h : Heap) : option (nat * Heap) :=
  obj ← h !! em;
  let md := mkMetricDirective
              (match dimensions with None => Some ∅ | Some d => Some d end)
              (Some ∅) namespace in
  Some (length (metrics obj), <[em := mkEmbeddedMetric (metrics obj ++ [md]) (properties obj)]> h).

(** [NewEmbeddedMetric()] *)
Definition NewEmbeddedMetric (h : Heap) : nat * Heap :=
  let em := fresh (dom h) in
  (em, <[em := mkEmbeddedMetric [] (Some ∅)]> h).

(** [NewEmbeddedMetricWithProperties(props)]. The heap holds one property
    bag per object, so the new object takes the entries of [props]; in Go
    it holds the caller's map itself (line 243). The two agree for a caller
    that hands the map over; a map the caller goes on writing to, or gives
    to a second object, is shared state this heap does not describe. *)
Definition NewEmbeddedMetricWithProperties (props : GoMap GoValue) (h : Heap)
  : nat * Heap :=
  let em := fresh (dom h) in
  (em, <[em := mkEmbeddedMetric []
                 (match props with None => Some ∅ | Some p => Some p end)]> h).

(* ===================================================================== *)
(** ** [MarshalJSON] *)
(* ===================================================================== *)

(** Lines 184-187: the map literal with the two reserved keys. *)
Definition jsonMap_literal (envMap : gmap string string) : gmap string GoValue :=
  <["log_steam_name" := GoString (env_index envMap "AWS_LAMBDA_LOG_STREAM_NAME")]>
    (<["log_group_name" := GoString (env_index envMap "AWS_LAMBDA_LOG_GROUP_NAME")]> ∅).

(** Lines 188-190: one step of the loop over the properties. *)
Definition property_step (jsonMap : gmap string GoValue) (kv : string * GoValue)
  : gmap string GoValue :=
  <[kv.1 := kv.2]> jsonMap.

(** Lines 204-211: one step of the loop over the metrics of a directive. *)
Definition metric_step
    (acc : gmap string GoValue * emf.emfAWSCloudWatchMetricsElem)
    (kv : string * MetricValue)
  : gmap string GoValue * emf.emfAWSCloudWatchMetricsElem :=
  let '(jsonMap, metricsElem) := acc in
  let '(eachKey, eachMetric) := kv in
  (<[eachKey := Value eachMetric]> jsonMap,
   emf.mkElem (emf.Dimensions metricsElem)
              (emf.Metrics metricsElem ++ [emf.mkMetricsElem eachKey (Unit eachMetric)])
              (emf.Namespace metricsElem)).

(** Lines 212-216: one step of the loop over the dimensions of a directive. *)
Definition dimension_step
    (acc : gmap string GoValue * emf.emfAWSCloudWatchMetricsElem)
    (kv : string * string)
  : gmap string GoValue * emf.emfAWSCloudWatchMetricsElem :=
  let '(jsonMap, metricsElem) := acc in
  let '(eachKey, eachValue) := kv in
  (<[eachKey := GoString eachValue]> jsonMap,
   emf.mkElem (emf.Dimensions metricsElem ++ [[eachKey]])
              (emf.Metrics metricsElem)
              (emf.Namespace metricsElem)).

(** Lines 197-218: the body of the loop over the directives. *)
Definition directive_step (seeds : list nat * list nat)
    (acc : gmap string GoValue * emf.emfAWS) (eachDirective : MetricDirective)
  : gmap string GoValue * emf.emfAWS :=
  let '(jsonMap, cwMetrics) := acc in
  let metricsElem := emf.mkElem [] [] (namespace eachDirective) in
  let acc1 := foldl metric_step (jsonMap, metricsElem)
                    (range seeds.1 (Metrics eachDirective)) in
  let '(jsonMap', metricsElem') :=
    foldl dimension_step acc1 (range seeds.2 (Dimensions eachDirective)) in
  (jsonMap',
   emf.mkAWS (emf.CloudWatchMetrics cwMetrics ++ [metricsElem']) (emf.Timestamp cwMetrics)).

(** Lines 196-219: the loop over [em.metrics], each directive with the seeds
    of its two inner loops. *)
Fixpoint walk_directives (seeds : list (list nat * list nat))
    (acc : gmap string GoValue * emf.emfAWS) (ds : list MetricDirective)
  : gmap string GoValue * emf.emfAWS :=
  match ds with
  | [] => acc
  | d :: ds' =>
      walk_directives (tail seeds) (directive_step (hd ([], []) seeds) acc d) ds'
  end.

(** [time.Millisecond] in nanoseconds. *)
Definition time_Millisecond : Z := 1000000.

(** Lines 184-220: [jsonMap] as handed to [json.Marshal]. *)
Definition MarshalJSON_jsonMap (envMap : gmap string string) (r : Run)
    (em : EmbeddedMetric) : gmap string GoValue :=
  let jsonMap := jsonMap_literal envMap in
  let jsonMap := foldl property_step jsonMap (range (seed_properties r) (properties em)) in
  let cwMetrics := emf.mkAWS [] (now r ÷ time_Millisecond) in
  let '(jsonMap, cwMetrics) :=
    walk_directives (seed_directives r) (jsonMap, cwMetrics) (metrics em) in
  <["_aws" := GoEmfAWS cwMetrics]> jsonMap.

(** The document [MarshalJSON] returns the bytes of. *)
Definition MarshalJSON_document (envMap : gmap string string) (r : Run)
    (em : EmbeddedMetric) : result MarshalError json :=
  encode_map (MarshalJSON_jsonMap envMap r em).

(** [em.MarshalJSON()] *)
Definition MarshalJSON (envMap : gmap string string) (r : Run)
    (em : EmbeddedMetric) : result MarshalError string :=
  json_Marshal_map (MarshalJSON_jsonMap envMap r em).

(** [json.Marshal(em)] for an [*EmbeddedMetric]: the bytes of its
    [MarshalJSON] method, or its error wrapped. *)
Definition json_Marshal_EmbeddedMetric (envMap : gmap string string) (r : Run)
    (em : EmbeddedMetric) : result MarshalError string :=
  match MarshalJSON envMap r em with
  | Ok raw => Ok raw
  | Err e => Err (MarshalerError "*cloudwatch.EmbeddedMetric" e)
  end.

(* ===================================================================== *)
(** ** [PublishToSink] and [Publish] *)
(* ===================================================================== *)

(** The text of the cardinality warning, [%d] filled in. *)
Definition warning (count : nat) : string :=
  "DimensionSet for structured metric must not have more than 9 elements. Count: "
  +:+ pretty count.

(** Lines 147-153: the body of the precondition loop. *)
Definition precondition_step {W} (w : World W) (eachDirective : MetricDirective)
  : World W :=
  if decide (9 < go_len (Dimensions eachDirective))%nat
  then fmt_Printf (warning (go_len (Dimensions eachDirective))) w
  else w.

(** Lines 155-157: [em = em.WithProperty(eachKey, eachValue)]. *)
Definition merge_step (acc : option (nat * Heap)) (kv : string * GoValue)
  : option (nat * Heap) :=
  '(em, h) ← acc; WithProperty em kv.1 kv.2 h.

(** [em.PublishToSink(additionalProperties, sink)]. The call returns
    nothing: its effect is the next heap and the next streams. [None] is
    the nil-pointer panic of a call on a receiver that is no object. *)
Definition PublishToSink {W} `{Writer W} (envMap : gmap string string) (r : Run)
    (em : nat) (additionalProperties : GoMap GoValue) (sink : Sink)
    (st : Heap * World W) : option (Heap * World W) :=
  let '(h, w) := st in
  obj ← h !! em;
  let w := foldl precondition_step w (metrics obj) in
  '(em, h) ← foldl merge_step (Some (em, h))
                   (range (seed_additional r) additionalProperties);
  obj ← h !! em;
  let '(w, writtenErr) :=
    match json_Marshal_EmbeddedMetric envMap r obj with
    | Ok rawJSON => io_WriteString sink rawJSON w
    | Err rawJSONErr =>
        io_WriteString sink ("Error publishing metric: " +:+ Error rawJSONErr) w
    end in
  Some (h, match writtenErr with
           | Some e => fmt_Printf ("ERROR: " +:+ GoSyntax e) w
           | None => w
           end).

(** [em.Publish(additionalProperties)] *)
Definition Publish {W} `{Writer W} (envMap : gmap string string) (r : Run)
    (em : nat) (additionalProperties : GoMap GoValue)
    (st : Heap * World W) : option (Heap * World W) :=
  PublishToSink envMap r em additionalProperties os_Stdout st.

(* ===================================================================== *)
(** ** The vocabulary of the properties *)
(* ===================================================================== *)

(** The map behind a Go map, empty for nil. *)
Definition entries_map {V} (m : GoMap V) : gmap string V := default ∅ m.

(** The writes of one directive to the flat top level: its metrics, then
    its dimensions. *)
Definition directive_writes (d : MetricDirective) : list (string * GoValue) :=
  (prod_map id Value <$> go_entries (Metrics d))
  ++ (prod_map id GoString <$> go_entries (Dimensions d)).

(** The writes of an [EmbeddedMetric] in their priority order: the property
    bag, then directive after directive in creation order. *)
Definition flat_writes (em : EmbeddedMetric) : list (string * GoValue) :=
  go_entries (properties em) ++ (metrics em ≫= directive_writes).

(** The writes in the order of three groups: the property bag, then the
    metrics of every directive, then the dimensions of every directive, the
    directives in creation order within a group. *)
Definition phased_writes (em : EmbeddedMetric) : list (string * GoValue) :=
  go_entries (properties em)
  ++ (metrics em ≫= λ d, prod_map id Value <$> go_entries (Metrics d))
  ++ (metrics em ≫= λ d, prod_map id GoString <$> go_entries (Dimensions d)).

(** A merge by key in which a later write replaces an earlier one. *)
Definition last_write_wins {V} (base : gmap string V) (writes : list (string * V))
  : gmap string V :=
  foldl (λ m kv, <[kv.1 := kv.2]> m) base writes.

(** The element of [CloudWatchMetrics] for a directive whose maps were
    visited in the given orders. *)
Definition element_of (ms : list (string * MetricValue)) (ds : list (string * string))
    (d : MetricDirective) : emf.emfAWSCloudWatchMetricsElem :=
  emf.mkElem ((λ kv, [kv.1]) <$> ds)
             ((λ kv, emf.mkMetricsElem kv.1 (Unit kv.2)) <$> ms)
             (namespace d).

(** The elements the loop over the directives builds. *)
Fixpoint elements_of (seeds : list (list nat * list nat)) (ds : list MetricDirective)
  : list emf.emfAWSCloudWatchMetricsElem :=
  match ds with
  | [] => []
  | d :: ds' =>
      element_of (range (hd ([], []) seeds).1 (Metrics d))
                 (range (hd ([], []) seeds).2 (Dimensions d)) d
      :: elements_of (tail seeds) ds'
  end.

(** The JSON forms the properties speak of. *)
Definition metric_entry (kv : string * MetricValue) : json :=
  JObject [("Name", JString kv.1); ("Unit", JString (Unit kv.2))].

Definition dimension_group (kv : string * string) : json :=
  JArray [JString kv.1].

Definition element_json (d : MetricDirective) (ds ms : list json) : json :=
  JObject [("Namespace", JString (namespace d));
           ("Dimensions", JArray ds);
           ("Metrics", JArray ms)].

(** The text [fmt.Printf] writes for the directives over the limit. *)
Definition warnings (ds : list MetricDirective) : string :=
  foldl (λ acc d, if decide (9 < go_len (Dimensions d))%nat
                  then acc +:+ warning (go_len (Dimensions d)) else acc) "" ds.

(** The text handed to the sink: the record, or the error line. *)
Definition payload (envMap : gmap string string) (r : Run) (em : EmbeddedMetric)
  : string :=
  match json_Marshal_EmbeddedMetric envMap r em with
  | Ok rawJSON => rawJSON
  | Err rawJSONErr => "Error publishing metric: " +:+ Error rawJSONErr
  end.

(** The property bag after the additional properties were merged in the
    given order. *)
Definition merged_properties (props : GoMap GoValue) (adds : list (string * GoValue))
  : GoMap GoValue :=
  foldl (λ p kv, Some (<[kv.1 := kv.2]> (entries_map p))) props adds.

(** [s] occurs in [t]. *)
Definition occurs_in (s t : string) : Prop := ∃ pre post, t = pre +:+ s +:+ post.

(* ===================================================================== *)
(** ** The embedded resources of the describe page *)
(* ===================================================================== *)

(** [strings.TrimLeft(s, cutset)] for a one-byte cutset. *)
Fixpoint TrimLeft (s : string) (cut : ascii) : string :=
  match s with
  | EmptyString => EmptyString
  | String c r => if Ascii.eqb c cut then TrimLeft r cut else s
  end.

(** [strings.HasPrefix(s, prefix)] *)
Fixpoint HasPrefix (s prefix : string) : bool :=
  match prefix, s with
  | EmptyString, _ => true
  | String a p, String b r => Ascii.eqb a b && HasPrefix r p
  | String _ _, EmptyString => false
  end.

(** [strings.Contains(s, substr)] *)
Fixpoint strings_Contains (s substr : string) : bool :=
  HasPrefix s substr
  || match s with
     | EmptyString => false
     | String _ r => strings_Contains r substr
     end.

(** [json.Marshal(v)] for a value without a [MarshalJSON] method. *)
Definition json_Marshal (v : GoValue) : result MarshalError string :=
  result_map render (encode v).

(** An entry handed to the logger: its level, fields and message. *)
Inductive Level : Type := DebugLevel | WarnLevel.

Record LogEntry := mkLogEntry {
  level : Level;
  fields : gmap string string;
  message : string
}.

Record templateResource := mkTemplateResource {
  KeyName : string;
  Data : string
}.

(** [templateResourceForKey(resourceKeyName, logger)]. The embedded file
    system behind [_escFSString(false, _)] is a parameter: the data of a
    path, or [None] for its error. The result is the resource, [None] for
    nil, with the entries logged. *)
Definition templateResourceForKey (escFSString : string → option string)
    (resourceKeyName : string) : option templateResource * list LogEntry :=
  let resourcePath := "/resources/describe/" +:+ TrimLeft resourceKeyName "/" in
  match escFSString resourcePath with
  | Some data =>
      let keyParts := Split resourcePath "/" in
      let keyName := default "" (last keyParts) in
      (Some (mkTemplateResource keyName data),
       [mkLogEntry DebugLevel {[ "Path" := resourcePath; "KeyName" := keyName ]}
                   "Embedded resource"])
  | None =>
      (None,
       [mkLogEntry WarnLevel {[ "Path" := resourcePath ]} "Failed to embed resource"])
  end.

(** The body of the loop of [templateResourcesForKeys]. *)
Definition templateResourcesForKeys_step (escFSString : string → option string)
    (acc : list templateResource * list LogEntry) (eachKey : string)
  : list templateResource * list LogEntry :=
  let '(loadedResource, logged) := templateResourceForKey escFSString eachKey in
  (match loadedResource with
   | Some r => acc.1 ++ [r]
   | None => acc.1
   end, acc.2 ++ logged).

(** [templateResourcesForKeys(resourceKeyNames, logger)] *)
Definition templateResourcesForKeys (escFSString : string → option string)
    (resourceKeyNames : list string) : list templateResource * list LogEntry :=
  foldl (templateResourcesForKeys_step escFSString) ([], []) resourceKeyNames.

(** The map literal of [iconForAWSResource]. The path of [s3] holds the
    byte 3 after [Amazon-Simple-], as the literal of the source does. *)
Definition iconMappings : gmap string string :=
  list_to_map
    [("dynamodb", "AWS-Architecture-Icons_SVG_20200131/SVG Light/Database/Amazon-DynamoDB_Table_light-bg.svg");
     ("sqs", "AWS-Architecture-Icons_SVG_20200131/SVG Light/Application Integration/Amazon-Simple-Queue-Service-SQS_light-bg.svg");
     ("sns", "AWS-Architecture-Icons_SVG_20200131/SVG Light/Application Integration/Amazon-Simple-Notification-Service-SNS_light-bg.svg");
     ("cloudwatch", "AWS-Architecture-Icons_SVG_20200131/SVG Light/Management & Governance/Amazon-CloudWatch.svg");
     ("kinesis", "AWS-Architecture-Icons_SVG_20200131/SVG Light/Analytics/Amazon-Kinesis_light-bg.svg");
     ("s3", "AWS-Architecture-Icons_SVG_20200131/SVG Light/Storage/Amazon-Simple-"
            +:+ String (ascii_of_nat 3) "Storage-Service-S3.svg");
     ("codecommit", "AWS-Architecture-Icons_SVG_20200131/SVG Light/Developer Tools/AWS-CodeCommit_light-bg.svg")].

Definition generalIcon : string :=
  "AWS-Architecture-Icons_SVG_20200131/SVG Light/_General/General_light-bg.svg".

(** [iconForAWSResource(rawEmitter)]. [strings.ToLower] is a parameter; the
    seed is the order in which the loop visits [iconMappings]. *)
Definition iconForAWSResource (ToLower : string → string) (seed : list nat)
    (rawEmitter : GoValue) : string :=
  let jsonBytes := match json_Marshal rawEmitter with
                   | Ok b => b
                   | Err _ => ""
                   end in
  let canonicalRaw := ToLower jsonBytes in
  match list_find (λ kv, strings_Contains canonicalRaw kv.1 = true)
                  (range seed (Some iconMappings)) with
  | Some (_, (_, eachPath)) => eachPath
  | None => generalIcon
  end.

(** [strings.ToLower] on ASCII text. *)
Definition ToLower_byte (c : ascii) : ascii :=
  let n := nat_of_ascii c in
  if (65 <=? n)%nat && (n <=? 90)%nat then ascii_of_nat (n + 32) else c.

Fixpoint ToLower_ascii (s : string) : string :=
  match s with
  | EmptyString => EmptyString
  | String c r => String (ToLower_byte c) (ToLower_ascii r)
  end.

(* ===================================================================== *)
(** ** Further vocabulary *)
(* ===================================================================== *)

(** The number of occurrences of a byte in a string. *)
Fixpoint count_byte (sep : ascii) (s : string) : nat :=
  match s with
  | EmptyString => 0
  | String c r => (if Ascii.eqb c sep then 1 else 0) + count_byte sep r
  end.

(** A text without a line feed. *)
Definition line_feed : ascii := ascii_of_nat 10.

Definition single_line (s : string) : bool := negb (Contains s line_feed).

(** The keys [MarshalJSON] writes before and after the properties and the
    directives. *)
Definition reserved_keys : list string := ["log_group_name"; "log_steam_name"].

(* ===================================================================== *)
(** ** Sample inputs *)
(* ===================================================================== *)

Module sample.

(** A Lambda environment. *)
Definition environ : list string :=
  ["PATH=/usr/bin";
   "AWS_LAMBDA_LOG_GROUP_NAME=/aws/lambda/hello";
   "AWS_LAMBDA_LOG_STREAM_NAME=2020/02/01/[$LATEST]abcdef"].

Definition envMap : gmap string string := init environ.

(** The scenario of a request metric: one property, one directive with one
    dimension and one metric. *)
Definition directive : MetricDirective :=
  mkMetricDirective (Some {[ "Stage" := "prod" ]})
                    (Some {[ "Latency" := mkMetricValue (GoInt 42) UnitMilliseconds ]})
                    "MyService".

Definition em : EmbeddedMetric :=
  mkEmbeddedMetric [directive] (Some {[ "requestId" := GoString "abc-123" ]}).

Definition run : Run := mkRun 1580515200123456789 [] [0%nat] [([0%nat], [0%nat])].

Definition doc : json :=
  match MarshalJSON_document envMap run em with
  | Ok d => d
  | Err _ => JNull
  end.

(** Keys written several times: [k] by a property, by a metric and a
    dimension of the first directive and by a metric of the second; [q] by a
    metric and a dimension of the first directive; [m] by a metric of the
    first directive and a dimension of the second. The property [p] holds a
    value that has no JSON form. *)
Definition colliding : EmbeddedMetric :=
  mkEmbeddedMetric
    [mkMetricDirective (Some {[ "k" := "dimension"; "q" := "dimension" ]})
                       (Some {[ "k" := mkMetricValue (GoInt 2) UnitCount;
                                "q" := mkMetricValue (GoInt 3) UnitCount;
                                "m" := mkMetricValue (GoInt 5) UnitCount ]})
                       "First";
     mkMetricDirective (Some {[ "m" := "later" ]})
                       (Some {[ "k" := mkMetricValue (GoInt 9) UnitCount ]})
                       "Second"]
    (Some {[ "k" := GoInt 1; "p" := GoFunc ]}).

(** No directive, and a property named as a reserved key. *)
Definition shadowing : EmbeddedMetric :=
  mkEmbeddedMetric [] (Some {[ "log_group_name" := GoInt 1 ]}).

Definition shadowing_doc : json :=
  match MarshalJSON_document envMap run shadowing with
  | Ok d => d
  | Err _ => JNull
  end.

(** A directive with ten dimensions and the object that owns it, at
    address 1 of the heap. *)
Definition oversized : MetricDirective :=
  mkMetricDirective
    (Some (list_to_map [("d0", "0"); ("d1", "1"); ("d2", "2"); ("d3", "3");
                        ("d4", "4"); ("d5", "5"); ("d6", "6"); ("d7", "7");
                        ("d8", "8"); ("d9", "9")]))
    (Some {[ "Requests" := mkMetricValue (GoInt 1) UnitCount ]})
    "Wide".

Definition wide : EmbeddedMetric := mkEmbeddedMetric [oversized] (Some ∅).

Definition wide_doc : json :=
  match MarshalJSON_document envMap run wide with
  | Ok d => d
  | Err _ => JNull
  end.

Definition heap : gmap nat EmbeddedMetric := {[ 1%nat := wide ]}.

(** An object whose property has no JSON form. *)
Definition unencodable : EmbeddedMetric :=
  mkEmbeddedMetric [] (Some {[ "callback" := GoFunc ]}).

(** The streams before a call: nothing written yet. *)
Definition quiet : World Buffer := mkWorld "" (mkBuffer "").

(** A directive with two metrics, and two runs at the same clock reading
    whose loops over the metrics start at different entries. *)
Definition two_metrics : EmbeddedMetric :=
  mkEmbeddedMetric
    [mkMetricDirective (Some ∅)
       (Some {[ "a" := mkMetricValue (GoInt 1) UnitCount;
                "b" := mkMetricValue (GoInt 2) UnitCount ]})
       "Pair"]
    (Some ∅).

Definition rerun : Run := mkRun 1580515200123456789 [] [0%nat] [([1%nat], [0%nat])].

(** A run half a millisecond after [run]. *)
Definition later : Run := mkRun 1580515200123956789 [] [0%nat] [([0%nat], [0%nat])].

Definition later_doc : json :=
  match MarshalJSON_document envMap later em with
  | Ok d => d
  | Err _ => JNull
  end.

(** An environment whose log group name holds an equals sign. *)
Definition environ_eq : list string :=
  ["PATH=/usr/bin";
   "AWS_LAMBDA_LOG_GROUP_NAME=/aws/lambda/a=b";
   "AWS_LAMBDA_LOG_STREAM_NAME=2020/02/01/[$LATEST]abcdef"].

(** The key [k] is a dimension of the first directive and a metric of the
    second. *)
Definition crossing : EmbeddedMetric :=
  mkEmbeddedMetric
    [mkMetricDirective (Some {[ "k" := "dimension" ]})
                       (Some {[ "a" := mkMetricValue (GoInt 1) UnitCount ]})
                       "First";
     mkMetricDirective (Some ∅)
                       (Some {[ "k" := mkMetricValue (GoInt 9) UnitCount ]})
                       "Second"]
    (Some ∅).

End sample.

(* ===================================================================== *)
(** ** Iteration orders and merges *)
(* ===================================================================== *)

Section ranges.
Context {V : Type}.
Implicit Types (m : GoMap V) (l : list (string * V)) (base : gmap string V).

Lemma pick_Permutation {A} seed (l : list A) : pick seed l ≡ₚ l.
Proof.
  revert l. induction seed as [|k seed IH]; intros l; simpl; [done|].
  destruct (l !! _) as [x|] eqn:E; [|done].
  rewrite IH. symmetry. by apply delete_Permutation.
Qed.

(** Every order of the entries is the order of some seed. *)
Lemma pick_complete {A} (l l' : list A) : l' ≡ₚ l → ∃ seed, pick seed l = l'.
Proof.
  revert l. induction l' as [|x l' IH]; intros l Hp.
  - exists []. simpl. apply Permutation_nil in Hp. by subst.
  - assert (x ∈ l) as Hx by (rewrite <- Hp; left).
    apply list_elem_of_lookup_1 in Hx as [i Hi].
    pose proof (delete_Permutation _ _ _ Hi) as Hd.
    rewrite Hd in Hp. apply Permutation_cons_inv in Hp.
    destruct (IH _ Hp) as [seed Hs]. exists (i :: seed). simpl.
    rewrite Nat.mod_small by (by eapply lookup_lt_Some).
    by rewrite Hi, Hs.
Qed.

Lemma range_Permutation seed m : range seed m ≡ₚ go_entries m.
Proof. apply pick_Permutation. Qed.

Lemma go_entries_NoDup m : NoDup (go_entries m).*1.
Proof. destruct m; simpl; [apply NoDup_fst_map_to_list | constructor]. Qed.

Lemma range_NoDup seed m : NoDup (range seed m).*1.
Proof. rewrite range_Permutation. apply go_entries_NoDup. Qed.

Lemma go_entries_to_map m : list_to_map (go_entries m) = entries_map m.
Proof. destruct m; simpl; [apply list_to_map_to_list | done]. Qed.

Lemma go_entries_length m : length (go_entries m) = go_len m.
Proof. destruct m; simpl; [apply length_map_to_list | done]. Qed.

Lemma range_length seed m : length (range seed m) = go_len m.
Proof. by rewrite range_Permutation, go_entries_length. Qed.

Lemma elem_of_go_entries m k v : (k, v) ∈ go_entries m ↔ entries_map m !! k = Some v.
Proof.
  destruct m; simpl; [apply elem_of_map_to_list|].
  rewrite lookup_empty. split; [by intros ?%elem_of_nil | done].
Qed.

Lemma last_write_wins_app base l1 l2 :
  last_write_wins base (l1 ++ l2) = last_write_wins (last_write_wins base l1) l2.
Proof. apply foldl_app. Qed.

Lemma last_write_wins_NoDup base l :
  NoDup l.*1 → last_write_wins base l = list_to_map l ∪ base.
Proof.
  revert base. induction l as [|[k v] l IH]; intros base Hnd; simpl.
  - by rewrite (left_id_L ∅ (∪)).
  - inversion_clear Hnd as [|?? Hk Hl]. unfold last_write_wins in *. simpl.
    rewrite IH by done. apply map_eq; intros i.
    rewrite !lookup_union, !lookup_insert.
    destruct (decide (k = i)) as [<-|]; [|done].
    rewrite (not_elem_of_list_to_map_1 _ k) by done.
    by destruct (base !! k).
Qed.

Lemma last_write_wins_lookup_None base l k :
  k ∉ l.*1 → last_write_wins base l !! k = base !! k.
Proof.
  revert base. induction l as [|[k' v] l IH]; intros base Hk; [done|].
  apply not_elem_of_cons in Hk as [Hne Hk]. unfold last_write_wins in *. simpl.
  rewrite IH by done. by rewrite lookup_insert_ne.
Qed.

Lemma last_write_wins_is_Some base l k :
  k ∈ l.*1 → is_Some (last_write_wins base l !! k).
Proof.
  revert base. induction l as [|[k' v'] l IH] using rev_ind; intros base H.
  - by apply elem_of_nil in H.
  - rewrite last_write_wins_app. unfold last_write_wins at 1. simpl.
    destruct (decide (k' = k)) as [->|Hne].
    + rewrite lookup_insert_eq. eauto.
    + rewrite lookup_insert_ne by done. apply IH.
      rewrite fmap_app in H. apply elem_of_app in H as [H|H]; [done|].
      simpl in H. apply list_elem_of_singleton in H. congruence.
Qed.
End ranges.

Lemma fst_prod_map {V W} (f : V → W) (l : list (string * V)) :
  (prod_map id f <$> l).*1 = l.*1.
Proof. induction l as [|[??] l IH]; csimpl; [done | by f_equal]. Qed.

Lemma last_write_wins_fmap_range {V W} (f : V → W) seed (m : GoMap V)
    (base : gmap string W) :
  last_write_wins base (prod_map id f <$> range seed m) = (f <$> entries_map m) ∪ base.
Proof.
  rewrite last_write_wins_NoDup.
  - rewrite list_to_map_fmap. f_equal. f_equal.
    rewrite <- go_entries_to_map. apply list_to_map_proper; [apply range_NoDup|].
    apply range_Permutation.
  - rewrite fst_prod_map. apply range_NoDup.
Qed.

Lemma last_write_wins_range {V} seed (m : GoMap V) (base : gmap string V) :
  last_write_wins base (range seed m) = entries_map m ∪ base.
Proof.
  rewrite last_write_wins_NoDup by apply range_NoDup. f_equal.
  rewrite <- go_entries_to_map. apply list_to_map_proper; [apply range_NoDup|].
  apply range_Permutation.
Qed.

(* ===================================================================== *)
(** ** What [MarshalJSON] hands to [json.Marshal] *)
(* ===================================================================== *)

Lemma foldl_metric_step jsonMap e l :
  foldl metric_step (jsonMap, e) l
  = (last_write_wins jsonMap (prod_map id Value <$> l),
     emf.mkElem (emf.Dimensions e)
                (emf.Metrics e ++ ((λ kv, emf.mkMetricsElem kv.1 (Unit kv.2)) <$> l))
                (emf.Namespace e)).
Proof.
  revert jsonMap e. induction l as [|[k v] l IH]; intros jsonMap e.
  - destruct e. simpl. by rewrite app_nil_r.
  - simpl. rewrite IH. simpl. by rewrite <- app_assoc.
Qed.

Lemma foldl_dimension_step jsonMap e l :
  foldl dimension_step (jsonMap, e) l
  = (last_write_wins jsonMap (prod_map id GoString <$> l),
     emf.mkElem (emf.Dimensions e ++ ((λ kv, [kv.1]) <$> l))
                (emf.Metrics e)
                (emf.Namespace e)).
Proof.
  revert jsonMap e. induction l as [|[k v] l IH]; intros jsonMap e.
  - destruct e. simpl. by rewrite app_nil_r.
  - simpl. rewrite IH. simpl. by rewrite <- app_assoc.
Qed.

Lemma last_write_wins_directive jsonMap s1 s2 d :
  last_write_wins jsonMap
    ((prod_map id Value <$> range s1 (Metrics d))
     ++ (prod_map id GoString <$> range s2 (Dimensions d)))
  = last_write_wins jsonMap (directive_writes d).
Proof.
  unfold directive_writes. rewrite !last_write_wins_app.
  rewrite !last_write_wins_fmap_range.
  change (go_entries (Metrics d)) with (range [] (Metrics d)).
  change (go_entries (Dimensions d)) with (range [] (Dimensions d)).
  by rewrite !last_write_wins_fmap_range.
Qed.

Lemma directive_step_eq seeds jsonMap cwMetrics d :
  directive_step seeds (jsonMap, cwMetrics) d
  = (last_write_wins jsonMap (directive_writes d),
     emf.mkAWS (emf.CloudWatchMetrics cwMetrics
                ++ [element_of (range seeds.1 (Metrics d))
                               (range seeds.2 (Dimensions d)) d])
               (emf.Timestamp cwMetrics)).
Proof.
  unfold directive_step. rewrite foldl_metric_step, foldl_dimension_step. simpl.
  by rewrite <- last_write_wins_directive with (s1 := seeds.1) (s2 := seeds.2),
             last_write_wins_app.
Qed.

Lemma walk_directives_eq seeds jsonMap cwMetrics ds :
  walk_directives seeds (jsonMap, cwMetrics) ds
  = (last_write_wins jsonMap (ds ≫= directive_writes),
     emf.mkAWS (emf.CloudWatchMetrics cwMetrics ++ elements_of seeds ds)
               (emf.Timestamp cwMetrics)).
Proof.
  revert seeds jsonMap cwMetrics.
  induction ds as [|d ds IH]; intros seeds jsonMap cwMetrics.
  - destruct cwMetrics. simpl. by rewrite app_nil_r.
  - cbn [walk_directives]. rewrite directive_step_eq, IH.
    cbn [elements_of emf.CloudWatchMetrics emf.Timestamp].
    rewrite bind_cons, last_write_wins_app, <- app_assoc. done.
Qed.

(** The flat map is the merge of the writes in their priority order, under
    the [_aws] entry written last. *)
Lemma MarshalJSON_jsonMap_eq envMap r em :
  MarshalJSON_jsonMap envMap r em
  = <["_aws" := GoEmfAWS (emf.mkAWS (elements_of (seed_directives r) (metrics em))
                                    (now r ÷ time_Millisecond))]>
      (last_write_wins (jsonMap_literal envMap) (flat_writes em)).
Proof.
  unfold MarshalJSON_jsonMap, flat_writes.
  change (foldl property_step) with (@last_write_wins GoValue).
  rewrite walk_directives_eq. simpl. rewrite last_write_wins_app.
  f_equal. f_equal.
  change (go_entries (properties em)) with (range [] (properties em)).
  by rewrite !last_write_wins_range.
Qed.

(* ===================================================================== *)
(** ** The document of a map *)
(* ===================================================================== *)

Lemma assoc_elem_of {A} k (v : A) l : NoDup l.*1 → (k, v) ∈ l → assoc k l = Some v.
Proof.
  induction l as [|[k' v'] l IH]; intros Hnd Hin; [by apply elem_of_nil in Hin|].
  inversion_clear Hnd as [|?? Hk Hl]. simpl. case_decide as Hd.
  - subst k'. apply elem_of_cons in Hin as [Heq|Hin]; [congruence|].
    destruct Hk. apply (list_elem_of_fmap_2 fst) in Hin. done.
  - apply elem_of_cons in Hin as [Heq|Hin]; [congruence | by apply IH].
Qed.

Lemma assoc_None {A} k (l : list (string * A)) : k ∉ l.*1 → assoc k l = None.
Proof.
  induction l as [|[k' v'] l IH]; intros Hk; [done|].
  apply not_elem_of_cons in Hk as [Hne Hk]. simpl.
  destruct (decide (k' = k)) as [Heq|?]; [by destruct Hne | by apply IH].
Qed.

Lemma encode_members_Ok l ms :
  encode_members l = Ok ms →
  Forall2 (λ kv m, m.1 = kv.1 ∧ encode kv.2 = Ok m.2) l ms.
Proof.
  revert ms. induction l as [|[k v] l IH]; intros ms H; simpl in H.
  - injection H as <-. constructor.
  - unfold encode_member in H. simpl in H.
    destruct (encode v) as [j|] eqn:Ev; [|done]. simpl in H.
    destruct (encode_members l) as [ms'|] eqn:El; [|done]. simpl in H.
    injection H as <-. constructor; [done | by apply IH].
Qed.

Lemma encode_members_total l :
  (∀ kv, kv ∈ l → is_Ok (encode kv.2) = true) → ∃ ms, encode_members l = Ok ms.
Proof.
  induction l as [|[k v] l IH]; intros H; simpl; [eauto|].
  unfold encode_member. simpl.
  pose proof (H (k, v) ltac:(left)) as Hv. simpl in Hv.
  destruct (encode v) as [j|]; [|done]. simpl.
  destruct IH as [ms ->]; [intros; apply H; by right|]. simpl. eauto.
Qed.

Lemma encode_members_keys l ms : encode_members l = Ok ms → ms.*1 = l.*1.
Proof.
  intros H%encode_members_Ok. induction H as [|?? ?? [? _] _ IH]; [done|].
  csimpl. by f_equal.
Qed.

Lemma sort_keys_Permutation {A} (l : list (string * A)) : sort_keys l ≡ₚ l.
Proof. apply merge_sort_Permutation. Qed.

Lemma encode_map_keys m doc :
  encode_map m = Ok doc → keys doc ≡ₚ (map_to_list m).*1 ∧ NoDup (keys doc).
Proof.
  unfold encode_map. intros H.
  destruct (encode_members _) as [ms|] eqn:E; [|done]. injection H as <-.
  apply encode_members_keys in E. simpl. rewrite E, sort_keys_Permutation.
  split; [done | apply NoDup_fst_map_to_list].
Qed.

Lemma encode_map_member_Some m doc k v :
  encode_map m = Ok doc → m !! k = Some v →
  ∃ j, encode v = Ok j ∧ member k doc = Some j.
Proof.
  unfold encode_map. intros H Hk.
  destruct (encode_members _) as [ms|] eqn:E; [|done]. injection H as <-.
  pose proof (encode_members_keys _ _ E) as Hkeys.
  apply encode_members_Ok in E.
  assert ((k, v) ∈ sort_keys (map_to_list m)) as Hin.
  { rewrite sort_keys_Permutation. by apply elem_of_map_to_list. }
  apply list_elem_of_lookup_1 in Hin as [i Hi].
  destruct (Forall2_lookup_l _ _ _ _ _ E Hi) as ([k' j] & Hj & Hk' & Hv).
  apply list_elem_of_lookup_2 in Hj.
  simpl in *. subst k'. exists j. split; [done|].
  apply assoc_elem_of; [|done].
  rewrite Hkeys, sort_keys_Permutation. apply NoDup_fst_map_to_list.
Qed.

Lemma encode_map_member_None m doc k :
  encode_map m = Ok doc → m !! k = None → member k doc = None.
Proof.
  unfold encode_map. intros H Hk.
  destruct (encode_members _) as [ms|] eqn:E; [|done]. injection H as <-.
  apply encode_members_keys in E. simpl. apply assoc_None.
  rewrite E, sort_keys_Permutation. intros Hin.
  apply list_elem_of_fmap in Hin as ([k' v] & -> & Hin).
  apply elem_of_map_to_list in Hin. simpl in Hk. congruence.
Qed.

Lemma encode_map_total m :
  (∀ k v, m !! k = Some v → is_Ok (encode v) = true) →
  ∃ doc, encode_map m = Ok doc.
Proof.
  intros H. unfold encode_map.
  destruct (encode_members_total (sort_keys (map_to_list m))) as [ms ->]; [|by eauto].
  intros [k v] Hin. rewrite sort_keys_Permutation in Hin.
  apply elem_of_map_to_list in Hin. by eapply H.
Qed.

Lemma member_keys doc k : is_Some (member k doc) → k ∈ keys doc.
Proof.
  destruct doc as [| | | | |ms]; simpl; try by intros [? ?].
  induction ms as [|[k' v] ms IH]; simpl; [by intros [? ?]|].
  case_decide; [subst; intros _; left | intros ?; right; by apply IH].
Qed.

(* ===================================================================== *)
(** ** The elements of [CloudWatchMetrics] *)
(* ===================================================================== *)

Lemma MarshalJSON_document_aws envMap r em doc :
  MarshalJSON_document envMap r em = Ok doc →
  member "_aws" doc
  = Some (encode_emfAWS (emf.mkAWS (elements_of (seed_directives r) (metrics em))
                                   (now r ÷ time_Millisecond))).
Proof.
  unfold MarshalJSON_document. rewrite MarshalJSON_jsonMap_eq. intros H.
  destruct (encode_map_member_Some _ _ "_aws" _ H (lookup_insert_eq _ _ _))
    as (j & Hj & ->).
  simpl in Hj. congruence.
Qed.

Lemma elements_of_length seeds ds : length (elements_of seeds ds) = length ds.
Proof. revert seeds. induction ds; intros seeds; simpl; [done | by rewrite IHds]. Qed.

Lemma elements_of_lookup seeds ds i d :
  ds !! i = Some d →
  ∃ s1 s2, elements_of seeds ds !! i
           = Some (element_of (range s1 (Metrics d)) (range s2 (Dimensions d)) d).
Proof.
  revert seeds i. induction ds as [|d' ds IH]; intros seeds [|i] H; simplify_eq/=.
  - eauto.
  - by apply IH.
Qed.

Lemma encode_Elem_element_of ms ds d :
  encode_Elem (element_of ms ds d)
  = element_json d (dimension_group <$> ds) (metric_entry <$> ms).
Proof.
  unfold encode_Elem, element_of, element_json. simpl.
  by rewrite <- !list_fmap_compose.
Qed.

Lemma NoDup_fmap_keys {A B} (f : string * A → B) l :
  (∀ x y, f x = f y → x.1 = y.1) → NoDup l.*1 → NoDup (f <$> l).
Proof.
  intros Hf. induction l as [|x l IH]; csimpl; intros Hnd; [constructor|].
  inversion_clear Hnd as [|?? Hx Hl]. constructor; [|by apply IH].
  intros Hin. apply list_elem_of_fmap in Hin as (y & Hxy & Hy).
  apply Hf in Hxy. destruct Hx. rewrite Hxy. by apply list_elem_of_fmap_2.
Qed.

Lemma metric_entry_key x y : metric_entry x = metric_entry y → x.1 = y.1.
Proof. unfold metric_entry. congruence. Qed.

Lemma dimension_group_key x y : dimension_group x = dimension_group y → x.1 = y.1.
Proof. unfold dimension_group. congruence. Qed.

Lemma NewMetricDirective_appends h p em ns dims :
  h !! p = Some em →
  ∃ md, NewMetricDirective p ns dims h
        = Some (length (metrics em),
                <[p := mkEmbeddedMetric (metrics em ++ [md]) (properties em)]> h)
        ∧ namespace md = ns
        ∧ entries_map (Dimensions md) = entries_map dims
        ∧ go_len (Metrics md) = 0%nat.
Proof.
  intros Hp. unfold NewMetricDirective. rewrite Hp. simpl.
  eexists. split; [reflexivity|]. simpl. by destruct dims.
Qed.

Lemma CloudWatchMetrics_elements envMap r em doc :
  MarshalJSON_document envMap r em = Ok doc →
  ∃ elems,
    member "_aws" doc ≫= member "CloudWatchMetrics" = Some (JArray elems) ∧
    length elems = length (metrics em) ∧
    ∀ i d, metrics em !! i = Some d →
      ∃ ds ms,
        elems !! i = Some (element_json d ds ms) ∧
        length ms = go_len (Metrics d) ∧
        ms ≡ₚ metric_entry <$> go_entries (Metrics d) ∧
        NoDup ms ∧
        length ds = go_len (Dimensions d) ∧
        ds ≡ₚ dimension_group <$> go_entries (Dimensions d) ∧
        NoDup ds.
Proof.
  intros Hdoc.
  exists (encode_Elem <$> elements_of (seed_directives r) (metrics em)).
  rewrite (MarshalJSON_document_aws _ _ _ _ Hdoc). split; [done|].
  split; [by rewrite length_fmap, elements_of_length|].
  intros i d Hd.
  destruct (elements_of_lookup (seed_directives r) _ _ _ Hd) as (s1 & s2 & He).
  exists (dimension_group <$> range s2 (Dimensions d)),
         (metric_entry <$> range s1 (Metrics d)).
  rewrite list_lookup_fmap, He. simpl. rewrite encode_Elem_element_of.
  rewrite !length_fmap, !range_length.
  split_and!; try done.
  - by rewrite range_Permutation.
  - apply NoDup_fmap_keys; [apply metric_entry_key | apply range_NoDup].
  - by rewrite range_Permutation.
  - apply NoDup_fmap_keys; [apply dimension_group_key | apply range_NoDup].
Qed.

(** C1. For every directive of an [EmbeddedMetric], at position [i] of the
    creation-ordered list [em.metrics], the [i]-th element of
    [_aws.CloudWatchMetrics] in the encoded document is the element of that
    directive: its [Metrics] array holds one [{Name, Unit}] object per metric
    and its [Dimensions] array one single-name array per dimension, each
    array a duplicate-free permutation of the entries of the directive's map,
    so their lengths are the numbers of metrics and dimensions. There are as
    many elements as directives, and [NewMetricDirective] appends the new
    directive after the existing ones. *)
Theorem C1_one_element_per_directive envMap r em doc :
  MarshalJSON_document envMap r em = Ok doc →
  (∃ elems,
      member "_aws" doc ≫= member "CloudWatchMetrics" = Some (JArray elems) ∧
      length elems = length (metrics em) ∧
      ∀ i d, metrics em !! i = Some d →
        ∃ ds ms,
          elems !! i = Some (element_json d ds ms) ∧
          length ms = go_len (Metrics d) ∧
          ms ≡ₚ metric_entry <$> go_entries (Metrics d) ∧
          NoDup ms ∧
          length ds = go_len (Dimensions d) ∧
          ds ≡ₚ dimension_group <$> go_entries (Dimensions d) ∧
          NoDup ds) ∧
  (∀ h p ns dims, h !! p = Some em →
      ∃ md, NewMetricDirective p ns dims h
            = Some (length (metrics em),
                    <[p := mkEmbeddedMetric (metrics em ++ [md]) (properties em)]> h)
            ∧ namespace md = ns).
Proof.
  intros Hdoc. split.
  - by eapply CloudWatchMetrics_elements.
  - intros h p ns dims Hp.
    destruct (NewMetricDirective_appends h p em ns dims Hp) as (md & ? & ? & _).
    eauto.
Qed.

Lemma C1_one_element_per_directive_witness :
  MarshalJSON_document sample.envMap sample.run sample.em = Ok sample.doc ∧
  ∃ elems,
    member "_aws" sample.doc ≫= member "CloudWatchMetrics" = Some (JArray elems) ∧
    length elems = 1%nat.
Proof.
  assert (MarshalJSON_document sample.envMap sample.run sample.em = Ok sample.doc)
    as H by (vm_compute; reflexivity).
  split; [exact H|].
  destruct (C1_one_element_per_directive _ _ _ _ H) as [(elems & He & Hl & _) _].
  exists elems. split; [exact He | exact Hl].
Defined.

(* ===================================================================== *)
(** ** The flat top level *)
(* ===================================================================== *)

Lemma last_write_wins_last {V} (base : gmap string V) l1 k v l2 :
  k ∉ l2.*1 → last_write_wins base (l1 ++ (k, v) :: l2) !! k = Some v.
Proof.
  intros Hk. rewrite last_write_wins_app.
  change ((k, v) :: l2) with (app [(k, v)] l2).
  rewrite (last_write_wins_app _ [(k, v)] l2).
  rewrite last_write_wins_lookup_None by done.
  unfold last_write_wins at 1. simpl. apply lookup_insert_eq.
Qed.

Lemma MarshalJSON_document_member envMap r em doc k :
  MarshalJSON_document envMap r em = Ok doc → k ≠ "_aws" →
  match last_write_wins (jsonMap_literal envMap) (flat_writes em) !! k with
  | Some v => ∃ j, encode v = Ok j ∧ member k doc = Some j
  | None => member k doc = None
  end.
Proof.
  unfold MarshalJSON_document. rewrite MarshalJSON_jsonMap_eq. intros H Hk.
  destruct (last_write_wins _ _ !! k) as [v|] eqn:E.
  - eapply encode_map_member_Some; [done|]. by rewrite lookup_insert_ne.
  - eapply encode_map_member_None; [done|]. by rewrite lookup_insert_ne.
Qed.

Lemma MarshalJSON_document_total envMap r em :
  (∀ k v, k ≠ "_aws" →
          last_write_wins (jsonMap_literal envMap) (flat_writes em) !! k = Some v →
          is_Ok (encode v) = true) →
  ∃ doc, MarshalJSON_document envMap r em = Ok doc.
Proof.
  intros H. unfold MarshalJSON_document. rewrite MarshalJSON_jsonMap_eq.
  apply encode_map_total. intros k v Hk.
  rewrite lookup_insert in Hk. case_decide; simplify_eq; [done | by eapply H].
Qed.

(** C2, as the code has it. The flat top level of the encoded document is
    the merge by key of the property bag, then, directive after directive in
    creation order, the metrics of the directive (name to raw value)
    followed by its dimensions (name to value), laid over the two reserved
    keys and under the [_aws] entry: under every key other than [_aws] the
    document holds the value of the last write to that key in this order; a
    collision raises no error, the encoding succeeds whenever the surviving
    values encode. *)
Theorem C2_flat_merge envMap r em :
  let merged := last_write_wins (jsonMap_literal envMap) (flat_writes em) in
  (∃ aws, MarshalJSON_jsonMap envMap r em = <["_aws" := GoEmfAWS aws]> merged) ∧
  (∀ l1 k v l2, flat_writes em = l1 ++ (k, v) :: l2 → k ∉ l2.*1 →
                merged !! k = Some v) ∧
  (∀ k, k ∉ (flat_writes em).*1 → merged !! k = jsonMap_literal envMap !! k) ∧
  (∀ doc k, MarshalJSON_document envMap r em = Ok doc → k ≠ "_aws" →
            match merged !! k with
            | Some v => ∃ j, encode v = Ok j ∧ member k doc = Some j
            | None => member k doc = None
            end) ∧
  ((∀ k v, k ≠ "_aws" → merged !! k = Some v → is_Ok (encode v) = true) →
   ∃ doc, MarshalJSON_document envMap r em = Ok doc).
Proof.
  intros merged. split_and!.
  - eexists. apply MarshalJSON_jsonMap_eq.
  - intros l1 k v l2 Hw Hk. unfold merged. rewrite Hw.
    by apply last_write_wins_last.
  - intros k Hk. by apply last_write_wins_lookup_None.
  - intros doc k. apply MarshalJSON_document_member.
  - apply MarshalJSON_document_total.
Qed.

(** C2 as stated fails: with the writes ordered in three groups, the
    properties, the metrics of all directives, the dimensions of all
    directives, the dimension [k] of the first directive would stand over the
    metric [k] of the second; the encoder writes directive after directive
    and the document holds the metric. *)
Lemma C2_counterexample :
  last_write_wins (jsonMap_literal sample.envMap) (phased_writes sample.crossing) !! "k"
  = Some (GoString "dimension") ∧
  last_write_wins (jsonMap_literal sample.envMap) (flat_writes sample.crossing) !! "k"
  = Some (GoInt 9) ∧
  result_map (member "k")
    (MarshalJSON_document sample.envMap sample.run sample.crossing)
  = Ok (Some (JNumber 9)).
Proof. vm_compute. split_and!; reflexivity. Qed.

(** The priority order on a collision: within a directive the dimension
    replaces the metric of the same name; a later directive replaces what an
    earlier one wrote, its metric the earlier dimension as well as its
    dimension the earlier metric; the property that does not encode fails
    the whole encoding. *)
Example colliding_keys :
  let merged := last_write_wins (jsonMap_literal sample.envMap)
                                (flat_writes sample.colliding) in
  merged !! "q" = Some (GoString "dimension") ∧
  merged !! "k" = Some (GoInt 9) ∧
  merged !! "m" = Some (GoString "later") ∧
  MarshalJSON sample.envMap sample.run sample.colliding
  = Err (UnsupportedTypeError "func()").
Proof. vm_compute. done. Qed.

(* ===================================================================== *)
(** ** The reserved keys *)
(* ===================================================================== *)

Lemma last_write_wins_is_Some_base {V} (base : gmap string V) l k :
  is_Some (base !! k) → is_Some (last_write_wins base l !! k).
Proof.
  revert base. induction l as [|[k' v] l IH]; intros base H; [done|].
  unfold last_write_wins in *. simpl. apply IH.
  rewrite lookup_insert. case_decide; eauto.
Qed.

Lemma MarshalJSON_document_reserved envMap r em doc k :
  MarshalJSON_document envMap r em = Ok doc → k ≠ "_aws" →
  is_Some (jsonMap_literal envMap !! k) → k ∈ keys doc.
Proof.
  intros Hdoc Hk Hlit. apply member_keys.
  pose proof (MarshalJSON_document_member _ _ _ _ k Hdoc Hk) as Hm.
  destruct (last_write_wins_is_Some_base _ (flat_writes em) k Hlit) as [v Hv].
  rewrite Hv in Hm. destruct Hm as (j & _ & ->). eauto.
Qed.

Lemma MarshalJSON_document_untouched envMap r em doc k v :
  MarshalJSON_document envMap r em = Ok doc → k ≠ "_aws" →
  k ∉ (flat_writes em).*1 → jsonMap_literal envMap !! k = Some (GoString v) →
  member k doc = Some (JString v).
Proof.
  intros Hdoc Hk Hw Hlit.
  pose proof (MarshalJSON_document_member _ _ _ _ k Hdoc Hk) as Hm.
  rewrite last_write_wins_lookup_None, Hlit in Hm by done.
  destruct Hm as (j & Hj & ->). simpl in Hj. congruence.
Qed.

(** C3, as the code has it. Whenever the encoding succeeds, the document
    has the two keys [log_group_name] and [log_steam_name] and an [_aws]
    object with [Timestamp] and [CloudWatchMetrics], the latter the empty
    array when there is no directive. The value of a reserved key is the
    entry of the environment snapshot, the empty string when the variable is
    not in the snapshot, provided no property, metric or dimension is written
    under that key. *)
Theorem C3_reserved_fields envMap r em doc :
  MarshalJSON_document envMap r em = Ok doc →
  "log_group_name" ∈ keys doc ∧
  "log_steam_name" ∈ keys doc ∧
  ("log_group_name" ∉ (flat_writes em).*1 →
   member "log_group_name" doc
   = Some (JString (default "" (envMap !! "AWS_LAMBDA_LOG_GROUP_NAME")))) ∧
  ("log_steam_name" ∉ (flat_writes em).*1 →
   member "log_steam_name" doc
   = Some (JString (default "" (envMap !! "AWS_LAMBDA_LOG_STREAM_NAME")))) ∧
  (∃ elems,
      member "_aws" doc
      = Some (JObject [("Timestamp", JNumber (now r ÷ time_Millisecond));
                       ("CloudWatchMetrics", JArray elems)]) ∧
      (metrics em = [] → elems = [])).
Proof.
  intros Hdoc. split_and!.
  - eapply MarshalJSON_document_reserved; [done | done | by eexists].
  - eapply MarshalJSON_document_reserved; [done | done | by eexists].
  - intros Hw. by eapply MarshalJSON_document_untouched.
  - intros Hw. by eapply MarshalJSON_document_untouched.
  - rewrite (MarshalJSON_document_aws _ _ _ _ Hdoc).
    eexists. split; [reflexivity|]. by intros ->.
Qed.

Lemma C3_reserved_fields_witness :
  MarshalJSON_document sample.envMap sample.run sample.em = Ok sample.doc ∧
  "log_group_name" ∈ keys sample.doc ∧
  "log_steam_name" ∈ keys sample.doc.
Proof.
  assert (MarshalJSON_document sample.envMap sample.run sample.em = Ok sample.doc)
    as H by (vm_compute; reflexivity).
  split; [exact H|].
  destruct (C3_reserved_fields _ _ _ _ H) as (H1 & H2 & _).
  split; [exact H1 | exact H2].
Defined.

(** C3 as stated fails: with a property named [log_group_name] the field
    holds the property, not the entry of the environment snapshot. *)
Lemma C3_counterexample :
  MarshalJSON_document sample.envMap sample.run sample.shadowing
  = Ok sample.shadowing_doc ∧
  metrics sample.shadowing = [] ∧
  env_index sample.envMap "AWS_LAMBDA_LOG_GROUP_NAME" = "/aws/lambda/hello" ∧
  member "log_group_name" sample.shadowing_doc = Some (JNumber 1) ∧
  member "log_group_name" sample.shadowing_doc
  ≠ Some (JString (env_index sample.envMap "AWS_LAMBDA_LOG_GROUP_NAME")).
Proof. vm_compute. split_and!; done. Qed.

(* ===================================================================== *)
(** ** What a publish call does *)
(* ===================================================================== *)

Lemma string_app_assoc (s1 s2 s3 : string) : (s1 +:+ s2) +:+ s3 = s1 +:+ (s2 +:+ s3).
Proof.
  induction s1 as [|a s1 IH]; [reflexivity|].
  change (String a ((s1 +:+ s2) +:+ s3) = String a (s1 +:+ (s2 +:+ s3))).
  by rewrite IH.
Qed.

Lemma string_app_nil_r (s : string) : s +:+ "" = s.
Proof.
  induction s as [|a s IH]; [reflexivity|].
  change (String a (s +:+ "") = String a s). by rewrite IH.
Qed.

Lemma warnings_foldl acc ds :
  foldl (λ acc d, if decide (9 < go_len (Dimensions d))%nat
                  then acc +:+ warning (go_len (Dimensions d)) else acc) acc ds
  = acc +:+ warnings ds.
Proof.
  unfold warnings. induction ds as [|d ds IH] using rev_ind.
  - simpl. by rewrite string_app_nil_r.
  - rewrite !foldl_app. simpl. rewrite IH.
    case_decide; [by rewrite string_app_assoc | done].
Qed.

Lemma warnings_app ds1 ds2 : warnings (ds1 ++ ds2) = warnings ds1 +:+ warnings ds2.
Proof. unfold warnings at 1. rewrite foldl_app. apply warnings_foldl. Qed.

Lemma warnings_cons d ds :
  warnings (d :: ds)
  = (if decide (9 < go_len (Dimensions d))%nat
     then warning (go_len (Dimensions d)) else "") +:+ warnings ds.
Proof.
  unfold warnings at 1. simpl. rewrite warnings_foldl. by case_decide.
Qed.

Lemma warnings_occurs ds i d :
  ds !! i = Some d → (9 < go_len (Dimensions d))%nat →
  occurs_in (warning (go_len (Dimensions d))) (warnings ds).
Proof.
  intros Hi Hd. rewrite <- (take_drop_middle _ _ _ Hi).
  rewrite warnings_app, warnings_cons, decide_True by done.
  by exists (warnings (take i ds)), (warnings (drop (S i) ds)).
Qed.

Lemma foldl_precondition_step {W} (w : World W) ds :
  foldl precondition_step w ds = fmt_Printf (warnings ds) w.
Proof.
  unfold fmt_Printf. induction ds as [|d ds IH] using rev_ind.
  - destruct w. simpl. by rewrite string_app_nil_r.
  - rewrite foldl_app. simpl. rewrite IH, warnings_app, warnings_cons.
    unfold precondition_step, fmt_Printf, warnings. simpl.
    case_decide; rewrite ?string_app_nil_r, ?string_app_assoc; done.
Qed.

Lemma WithProperty_eq h em obj key value :
  h !! em = Some obj →
  WithProperty em key value h
  = Some (em, <[em := mkEmbeddedMetric (metrics obj)
                        (Some (<[key := value]> (entries_map (properties obj))))]> h).
Proof. intros Hem. unfold WithProperty. rewrite Hem. simpl. by destruct (properties obj). Qed.

Lemma merge_loop h em obj adds :
  h !! em = Some obj →
  foldl merge_step (Some (em, h)) adds
  = Some (em, <[em := mkEmbeddedMetric (metrics obj)
                        (merged_properties (properties obj) adds)]> h).
Proof.
  revert h obj. induction adds as [|[k v] adds IH]; intros h obj Hem.
  - simpl. destruct obj. by rewrite insert_id.
  - simpl. rewrite (WithProperty_eq _ _ _ _ _ Hem).
    erewrite IH by apply lookup_insert_eq. simpl. by rewrite insert_insert_eq.
Qed.

Lemma merged_properties_Some m adds :
  merged_properties (Some m) adds = Some (last_write_wins m adds).
Proof.
  revert m. induction adds as [|[k v] adds IH]; intros m; [done|].
  unfold merged_properties, last_write_wins in *. simpl. by rewrite IH.
Qed.

(** A publish call on an object: the warnings go to the standard output,
    the additional properties are merged into the object, the record or the
    error line goes to the sink in one write, and a failed write is reported
    on the standard output. *)
Lemma PublishToSink_eq {W} `{Writer W} envMap r h (w : World W) em obj adds sink :
  h !! em = Some obj →
  PublishToSink envMap r em adds sink (h, w)
  = let obj' := mkEmbeddedMetric (metrics obj)
                  (merged_properties (properties obj) (range (seed_additional r) adds)) in
    let written := io_WriteString sink (payload envMap r obj')
                                  (fmt_Printf (warnings (metrics obj)) w) in
    Some (<[em := obj']> h,
          match written.2 with
          | Some e => fmt_Printf ("ERROR: " +:+ GoSyntax e) written.1
          | None => written.1
          end).
Proof.
  intros Hem. unfold PublishToSink. rewrite Hem. simpl.
  rewrite (merge_loop _ _ _ _ Hem). simpl. rewrite lookup_insert_eq. simpl.
  rewrite foldl_precondition_step. unfold payload.
  destruct (json_Marshal_EmbeddedMetric _ _ _); by destruct (io_WriteString _ _ _).
Qed.

Lemma key_written_present envMap r em doc k :
  MarshalJSON_document envMap r em = Ok doc → k ∈ (flat_writes em).*1 → k ∈ keys doc.
Proof.
  intros Hdoc Hk. apply member_keys. destruct (decide (k = "_aws")) as [->|Hne].
  - rewrite (MarshalJSON_document_aws _ _ _ _ Hdoc). eauto.
  - pose proof (MarshalJSON_document_member _ _ _ _ k Hdoc Hne) as Hm.
    destruct (last_write_wins_is_Some (jsonMap_literal envMap) _ _ Hk) as [v Hv].
    rewrite Hv in Hm. destruct Hm as (j & _ & ->). eauto.
Qed.

Lemma dimension_written em i d k v :
  metrics em !! i = Some d → entries_map (Dimensions d) !! k = Some v →
  k ∈ (flat_writes em).*1.
Proof.
  intros Hi Hk. unfold flat_writes. rewrite fmap_app. apply elem_of_app. right.
  apply (list_elem_of_fmap_2' fst _ (k, GoString v)); [|done].
  apply list_elem_of_bind. exists d. split; [|by eapply list_elem_of_lookup_2].
  unfold directive_writes. apply elem_of_app. right.
  apply (list_elem_of_fmap_2' _ _ (k, v)); [|done]. by apply elem_of_go_entries.
Qed.

Lemma MarshalJSON_payload envMap r em doc :
  MarshalJSON_document envMap r em = Ok doc → payload envMap r em = render doc.
Proof.
  unfold payload, json_Marshal_EmbeddedMetric, MarshalJSON, json_Marshal_map,
    MarshalJSON_document.
  by intros ->.
Qed.

(* ===================================================================== *)
(** ** Directives over the dimension limit *)
(* ===================================================================== *)

Lemma occurs_in_app pre s t post :
  occurs_in s t → occurs_in s (pre +:+ t +:+ post).
Proof.
  intros (l & r & ->). exists (pre +:+ l), (r +:+ post).
  by rewrite !string_app_assoc.
Qed.

(** What a publish call leaves on the standard output: what was there, the
    warnings, and then the record (when the sink is the standard output) or
    the report of a failed write. *)
Lemma PublishToSink_Stdout {W} `{Writer W} envMap r h (w : World W) p em adds sink h' w' :
  h !! p = Some em →
  PublishToSink envMap r p adds sink (h, w) = Some (h', w') →
  ∃ rest, Stdout w' = Stdout w +:+ warnings (metrics em) +:+ rest.
Proof.
  intros Hp Hpub. rewrite (PublishToSink_eq _ _ _ _ _ _ _ _ Hp) in Hpub.
  simpl in Hpub. injection Hpub as <- <-. destruct sink; simpl.
  - eexists. apply string_app_assoc.
  - destruct (Write _ _) as [x [err|]]; simpl.
    + eexists. apply string_app_assoc.
    + exists "". by rewrite string_app_nil_r.
Qed.

(** C4. A publish call on an object that owns a directive with more than
    nine dimensions returns normally: afterwards the standard output holds
    the warning [DimensionSet for structured metric must not have more than
    9 elements. Count: n] for that directive, after what was there before,
    the directive stays in the object, the sink is handed the record, and
    whenever the record encodes every dimension of the directive is a
    top-level key of the document and the one name of a group in the
    [Dimensions] array of the directive's element, which has as many groups
    as the directive has dimensions. *)
Theorem C4_oversized_directive_kept {W} `{Writer W} envMap r h (w : World W)
    p em adds sink i d :
  h !! p = Some em → metrics em !! i = Some d →
  (9 < go_len (Dimensions d))%nat →
  ∃ h' w' em',
    PublishToSink envMap r p adds sink (h, w) = Some (h', w') ∧
    h' !! p = Some em' ∧ metrics em' = metrics em ∧
    occurs_in (warning (go_len (Dimensions d))) (warnings (metrics em)) ∧
    (let written := io_WriteString sink (payload envMap r em')
                                   (fmt_Printf (warnings (metrics em)) w) in
     w' = match written.2 with
          | Some e => fmt_Printf ("ERROR: " +:+ GoSyntax e) written.1
          | None => written.1
          end) ∧
    (∃ rest, Stdout w' = Stdout w +:+ warnings (metrics em) +:+ rest) ∧
    occurs_in
      ("DimensionSet for structured metric must not have more than 9 elements. Count: "
       +:+ pretty (go_len (Dimensions d)))
      (Stdout w') ∧
    ∀ doc, MarshalJSON_document envMap r em' = Ok doc →
      payload envMap r em' = render doc ∧
      match sink with
      | caller_writer => writer w' = (Write (writer w) (render doc)).1
      | os_Stdout =>
          Stdout w' = Stdout w +:+ warnings (metrics em) +:+ render doc
          ∧ writer w' = writer w
      end ∧
      ∃ elems ds ms,
        member "_aws" doc ≫= member "CloudWatchMetrics" = Some (JArray elems) ∧
        elems !! i = Some (element_json d ds ms) ∧
        length ds = go_len (Dimensions d) ∧
        ∀ k v, entries_map (Dimensions d) !! k = Some v →
               k ∈ keys doc ∧ JArray [JString k] ∈ ds.
Proof.
  intros Hp Hi Hd.
  set (em' := mkEmbeddedMetric (metrics em)
                (merged_properties (properties em) (range (seed_additional r) adds))).
  set (written := io_WriteString sink (payload envMap r em')
                                 (fmt_Printf (warnings (metrics em)) w)).
  set (w' := match written.2 with
             | Some e => fmt_Printf ("ERROR: " +:+ GoSyntax e) written.1
             | None => written.1
             end).
  assert (PublishToSink envMap r p adds sink (h, w) = Some (<[p := em']> h, w'))
    as Hpub by by rewrite (PublishToSink_eq _ _ _ _ _ _ _ _ Hp).
  destruct (PublishToSink_Stdout _ _ _ _ _ _ _ _ _ _ Hp Hpub) as [rest Hout].
  exists (<[p := em']> h), w', em'.
  split; [done|]. split; [apply lookup_insert_eq|].
  split; [done|]. split; [by eapply warnings_occurs|]. split; [done|].
  split; [by exists rest|].
  split.
  { rewrite Hout. apply (occurs_in_app (Stdout w) _ _ rest).
    by eapply warnings_occurs. }
  intros doc Hdoc. pose proof (MarshalJSON_payload _ _ _ _ Hdoc) as Hpay.
  split; [done|]. split.
  { unfold w', written. rewrite Hpay. destruct sink; simpl.
    - split; [apply string_app_assoc | done].
    - by destruct (Write _ _) as [x [err|]]. }
  destruct (CloudWatchMetrics_elements _ _ _ _ Hdoc) as (elems & He & _ & Hall).
  destruct (Hall i d Hi) as (ds & ms & Hei & _ & _ & _ & Hlen & Hperm & _).
  exists elems, ds, ms. split_and!; try done.
  intros k v Hk. split.
  - eapply key_written_present; [done|]. by eapply (dimension_written _ i d).
  - rewrite Hperm. apply (list_elem_of_fmap_2' _ _ (k, v)); [|done].
    by apply elem_of_go_entries.
Qed.

Lemma C4_oversized_directive_kept_witness :
  sample.heap !! 1%nat = Some sample.wide ∧
  metrics sample.wide !! 0%nat = Some sample.oversized ∧
  (9 < go_len (Dimensions sample.oversized))%nat ∧
  ∃ h' w' em',
    PublishToSink sample.envMap sample.run 1%nat None caller_writer
                  (sample.heap, sample.quiet) = Some (h', w') ∧
    h' !! 1%nat = Some em' ∧ metrics em' = metrics sample.wide ∧
    occurs_in (warning (go_len (Dimensions sample.oversized)))
              (warnings (metrics sample.wide)) ∧
    occurs_in
      ("DimensionSet for structured metric must not have more than 9 elements. Count: "
       +:+ pretty (go_len (Dimensions sample.oversized)))
      (Stdout w').
Proof.
  assert (sample.heap !! 1%nat = Some sample.wide) as H1 by reflexivity.
  assert (metrics sample.wide !! 0%nat = Some sample.oversized) as H2 by reflexivity.
  assert (9 < go_len (Dimensions sample.oversized))%nat as H3 by (vm_compute; lia).
  split_and!; [exact H1 | exact H2 | exact H3 |].
  destruct (C4_oversized_directive_kept sample.envMap sample.run _ sample.quiet
              _ _ None caller_writer _ _ H1 H2 H3)
    as (h' & w' & em' & Hp & Hh & Hm & Ho & _ & _ & Hs & _).
  exists h', w', em'. split_and!; assumption.
Defined.

(** The ten dimensions in the bytes the buffer receives, after the warning
    on the standard output. *)
Example oversized_published :
  snd <$> PublishToSink sample.envMap sample.run 1%nat None caller_writer
                        (sample.heap, sample.quiet)
  = Some (mkWorld (warning 10) (mkBuffer (render sample.wide_doc)))
  ∧ MarshalJSON_document sample.envMap sample.run sample.wide = Ok sample.wide_doc
  ∧ member "_aws" sample.wide_doc ≫= member "CloudWatchMetrics"
    = Some (JArray [element_json sample.oversized
                      (dimension_group <$>
                         [("d7", ""); ("d3", ""); ("d5", ""); ("d9", ""); ("d1", "");
                          ("d6", ""); ("d2", ""); ("d4", ""); ("d8", ""); ("d0", "")])
                      [metric_entry ("Requests", mkMetricValue GoNil UnitCount)]]).
Proof. vm_compute. split_and!; reflexivity. Qed.

(* ===================================================================== *)
(** ** Failures of a publish call *)
(* ===================================================================== *)

(** C5. [PublishToSink] and [Publish] hand no error to their caller: for
    every object, additional properties, sink, clock and iteration order
    the call on the object returns, its only result the next state of the
    heap and of the streams. The sink is handed one text: the record when
    the JSON encoding succeeds and, when it fails, the line [Error
    publishing metric: ...] with the message of the error in place of the
    record. For [Publish] the sink is the standard output, which receives
    that text after the warnings. *)
Theorem C5_publish_returns_no_error {W} `{Writer W} envMap r h (w : World W)
    p em adds :
  h !! p = Some em →
  let em' := mkEmbeddedMetric (metrics em)
               (merged_properties (properties em) (range (seed_additional r) adds)) in
  (∀ sink, ∃ h' w',
      PublishToSink envMap r p adds sink (h, w) = Some (h', w') ∧
      h' !! p = Some em' ∧
      (∀ e, json_Marshal_EmbeddedMetric envMap r em' = Err e →
            let line := "Error publishing metric: " +:+ Error e in
            match sink with
            | caller_writer => writer w' = (Write (writer w) line).1
            | os_Stdout =>
                Stdout w' = Stdout w +:+ warnings (metrics em) +:+ line
                ∧ writer w' = writer w
            end) ∧
      (∀ rawJSON, json_Marshal_EmbeddedMetric envMap r em' = Ok rawJSON →
            match sink with
            | caller_writer => writer w' = (Write (writer w) rawJSON).1
            | os_Stdout =>
                Stdout w' = Stdout w +:+ warnings (metrics em) +:+ rawJSON
                ∧ writer w' = writer w
            end)) ∧
  (∃ h' w',
      Publish envMap r p adds (h, w) = Some (h', w') ∧
      h' !! p = Some em' ∧
      writer w' = writer w ∧
      (∀ e, json_Marshal_EmbeddedMetric envMap r em' = Err e →
            Stdout w' = Stdout w +:+ warnings (metrics em)
                        +:+ "Error publishing metric: " +:+ Error e) ∧
      (∀ rawJSON, json_Marshal_EmbeddedMetric envMap r em' = Ok rawJSON →
            Stdout w' = Stdout w +:+ warnings (metrics em) +:+ rawJSON)).
Proof.
  intros Hp em'. split.
  - intros sink. rewrite (PublishToSink_eq _ _ _ _ _ _ _ _ Hp). simpl.
    eexists _, _. split; [reflexivity|]. rewrite lookup_insert_eq.
    split; [reflexivity|]. fold em'. split.
    + intros e He. unfold payload. rewrite He. destruct sink; simpl.
      * by rewrite string_app_assoc.
      * by destruct (Write _ _) as [x [err|]].
    + intros rawJSON He. unfold payload. rewrite He. destruct sink; simpl.
      * by rewrite string_app_assoc.
      * by destruct (Write _ _) as [x [err|]].
  - unfold Publish. rewrite (PublishToSink_eq _ _ _ _ _ _ _ _ Hp). simpl.
    eexists _, _. split; [reflexivity|]. rewrite lookup_insert_eq.
    split; [reflexivity|]. fold em'. split; [done|]. split.
    + intros e He. unfold payload. rewrite He. apply string_app_assoc.
    + intros rawJSON He. unfold payload. rewrite He. apply string_app_assoc.
Qed.

Lemma C5_publish_returns_no_error_witness :
  ({[ 1%nat := sample.unencodable ]} : gmap nat EmbeddedMetric) !! 1%nat
  = Some sample.unencodable ∧
  (∃ h' w',
    PublishToSink sample.envMap sample.run 1%nat None caller_writer
                  ({[ 1%nat := sample.unencodable ]}, sample.quiet) = Some (h', w') ∧
    writer w'
    = mkBuffer ("Error publishing metric: json: error calling MarshalJSON for type "
                +:+ "*cloudwatch.EmbeddedMetric: json: unsupported type: func()")) ∧
  (∃ h' w',
    Publish sample.envMap sample.run 1%nat None
            ({[ 1%nat := sample.unencodable ]}, sample.quiet) = Some (h', w') ∧
    Stdout w'
    = "Error publishing metric: json: error calling MarshalJSON for type "
      +:+ "*cloudwatch.EmbeddedMetric: json: unsupported type: func()").
Proof.
  assert (({[ 1%nat := sample.unencodable ]} : gmap nat EmbeddedMetric) !! 1%nat
          = Some sample.unencodable) as H1 by reflexivity.
  split; [exact H1|].
  destruct (C5_publish_returns_no_error sample.envMap sample.run _ sample.quiet
              _ _ None H1) as [Hsink Hpublish].
  split.
  - destruct (Hsink caller_writer) as (h' & w' & Hp & Hh & Herr & _).
    exists h', w'. split; [exact Hp|].
    rewrite (Herr (MarshalerError "*cloudwatch.EmbeddedMetric"
                     (UnsupportedTypeError "func()"))); reflexivity.
  - destruct Hpublish as (h' & w' & Hp & Hh & _ & Herr & _).
    exists h', w'. split; [exact Hp|].
    rewrite (Herr (MarshalerError "*cloudwatch.EmbeddedMetric"
                     (UnsupportedTypeError "func()"))); reflexivity.
Defined.

(* ===================================================================== *)
(** ** Where the diagnostics go *)
(* ===================================================================== *)

(** C6, as the code has it. The diagnostics are printed on the process's
    standard output and never through the sink. A sink of the caller's
    receives one write, the record or the error line, and no diagnostic
    text; the warnings and the report of a failed write are appended to the
    standard output. When the sink is the standard output itself, as in
    [Publish], the warnings and the record are on the same stream, the
    warnings first. *)
Theorem C6_diagnostics_on_stdout {W} `{Writer W} envMap r h (w : World W)
    p em adds :
  h !! p = Some em →
  let em' := mkEmbeddedMetric (metrics em)
               (merged_properties (properties em) (range (seed_additional r) adds)) in
  let line := payload envMap r em' in
  (∃ h' w',
      PublishToSink envMap r p adds caller_writer (h, w) = Some (h', w') ∧
      writer w' = (Write (writer w) line).1 ∧
      Stdout w' = Stdout w +:+ warnings (metrics em)
                  +:+ match (Write (writer w) line).2 with
                      | Some e => "ERROR: " +:+ GoSyntax e
                      | None => ""
                      end) ∧
  (∃ h' w',
      Publish envMap r p adds (h, w) = Some (h', w') ∧
      writer w' = writer w ∧
      Stdout w' = Stdout w +:+ warnings (metrics em) +:+ line).
Proof.
  intros Hp em' line. split.
  - rewrite (PublishToSink_eq _ _ _ _ _ _ _ _ Hp). simpl.
    eexists _, _. split; [reflexivity|]. fold em' line.
    destruct (Write (writer w) line) as [x [err|]]; simpl.
    + split; [done | by rewrite string_app_assoc].
    + split; [done | by rewrite string_app_nil_r].
  - unfold Publish. rewrite (PublishToSink_eq _ _ _ _ _ _ _ _ Hp). simpl.
    eexists _, _. split; [reflexivity|]. fold em' line.
    split; [done | by rewrite string_app_assoc].
Qed.

Lemma C6_diagnostics_on_stdout_witness :
  sample.heap !! 1%nat = Some sample.wide ∧
  ∃ h' w',
    PublishToSink sample.envMap sample.run 1%nat None caller_writer
                  (sample.heap, sample.quiet) = Some (h', w') ∧
    writer w' = mkBuffer (render sample.wide_doc) ∧
    Stdout w' = warning 10.
Proof.
  assert (sample.heap !! 1%nat = Some sample.wide) as H1 by reflexivity.
  split; [exact H1|].
  destruct (C6_diagnostics_on_stdout sample.envMap sample.run _ sample.quiet
              _ _ None H1) as [(h' & w' & Hp & Hw & Hs) _].
  exists h', w'. split; [exact Hp|]. split.
  - rewrite Hw. vm_compute. reflexivity.
  - rewrite Hs. vm_compute. reflexivity.
Defined.

(** C6 as stated fails: [Publish] on an object with a ten-dimension
    directive writes the warning and the record to the same stream, the
    standard output, the warning directly in front of the record. *)
Lemma C6_counterexample :
  MarshalJSON_document sample.envMap sample.run sample.wide = Ok sample.wide_doc ∧
  snd <$> Publish sample.envMap sample.run 1%nat None (sample.heap, sample.quiet)
  = Some (mkWorld (warning 10 +:+ render sample.wide_doc) (mkBuffer "")) ∧
  warning 10
  = "DimensionSet for structured metric must not have more than 9 elements. Count: 10".
Proof. vm_compute. split_and!; reflexivity. Qed.

(** A sink that rejects the write: the report follows the warning on the
    standard output, the call returns. *)
Example rejected_write_reported :
  snd <$> PublishToSink sample.envMap sample.run 1%nat None caller_writer
                        (sample.heap, mkWorld "" (mkClosed []))
  = Some (mkWorld (warning 10 +:+ "ERROR: 0x9") (mkClosed [render sample.wide_doc])).
Proof. vm_compute. reflexivity. Qed.

(* ===================================================================== *)
(** ** Properties written twice *)
(* ===================================================================== *)

(** The number of times a key occurs in a list of keys. *)
Lemma occurrences_absent (l : list string) k :
  k ∉ l → length (filter (λ x, x = k) l) = 0%nat.
Proof.
  induction l as [|x l IH]; intros Hk; [done|].
  apply not_elem_of_cons in Hk as [Hne Hk].
  rewrite filter_cons_False by congruence. by apply IH.
Qed.

Lemma occurrences_NoDup (l : list string) k :
  NoDup l → k ∈ l → length (filter (λ x, x = k) l) = 1%nat.
Proof.
  induction 1 as [|x l Hx Hl IH]; intros Hk; [by apply elem_of_nil in Hk|].
  destruct (decide (x = k)) as [->|Hne].
  - rewrite filter_cons_True by done. simpl. by rewrite occurrences_absent.
  - rewrite filter_cons_False by done. apply IH.
    apply elem_of_cons in Hk as [?|?]; [congruence | done].
Qed.

Lemma property_written em k v :
  entries_map (properties em) !! k = Some v → k ∈ (flat_writes em).*1.
Proof.
  intros Hk. unfold flat_writes. rewrite fmap_app. apply elem_of_app. left.
  apply (list_elem_of_fmap_2' fst _ (k, v)); [|done]. by apply elem_of_go_entries.
Qed.

(** C7. Two [WithProperty] calls with the same key on one object each
    return the receiver; afterwards the property bag holds the key once,
    with the second value, and the other keys as before, so that the
    encoded document has the key exactly once. The additional properties of
    a publish call are merged the same way: an additional property replaces
    the entry of the same key. *)
Theorem C7_property_overwrite h p em key v1 v2 :
  h !! p = Some em →
  let props := <[key := v2]> (entries_map (properties em)) in
  let em2 := mkEmbeddedMetric (metrics em) (Some props) in
  (∃ h1, WithProperty p key v1 h = Some (p, h1) ∧
         WithProperty p key v2 h1 = Some (p, <[p := em2]> h)) ∧
  props !! key = Some v2 ∧
  (∀ k, k ≠ key → props !! k = entries_map (properties em) !! k) ∧
  length (filter (λ k, k = key) (map_to_list props).*1) = 1%nat ∧
  (∀ envMap r doc, MarshalJSON_document envMap r em2 = Ok doc →
                   length (filter (λ k, k = key) (keys doc)) = 1%nat) ∧
  (∀ W (HW : Writer W) envMap r (w : World W) sink (adds : gmap string GoValue),
      ∃ w', PublishToSink envMap r p (Some adds) sink (<[p := em2]> h, w)
            = Some (<[p := mkEmbeddedMetric (metrics em) (Some (adds ∪ props))]> h, w')
            ∧ ∀ v, adds !! key = Some v → (adds ∪ props) !! key = Some v).
Proof.
  intros Hp props em2. split_and!.
  - eexists. split; [by apply WithProperty_eq|].
    erewrite WithProperty_eq by apply lookup_insert_eq. simpl.
    rewrite (insert_insert_eq h), (insert_insert_eq (entries_map (properties em))).
    reflexivity.
  - apply lookup_insert_eq.
  - intros k Hk. by apply lookup_insert_ne.
  - apply occurrences_NoDup; [apply NoDup_fst_map_to_list|].
    apply (list_elem_of_fmap_2' fst _ (key, v2)); [|done].
    apply elem_of_map_to_list, lookup_insert_eq.
  - intros envMap r doc Hdoc.
    apply occurrences_NoDup; [by eapply encode_map_keys|].
    eapply key_written_present; [done|].
    apply (property_written em2 key v2), lookup_insert_eq.
  - intros W HW envMap r w sink adds.
    erewrite PublishToSink_eq by apply lookup_insert_eq. simpl.
    eexists. split.
    + rewrite insert_insert_eq, merged_properties_Some.
      by rewrite (last_write_wins_range _ (Some adds)).
    + intros v Hv. by apply lookup_union_Some_l.
Qed.

Lemma C7_property_overwrite_witness :
  ({[ 1%nat := sample.em ]} : gmap nat EmbeddedMetric) !! 1%nat = Some sample.em ∧
  ∃ h1, WithProperty 1%nat "requestId" (GoString "first")
                     ({[ 1%nat := sample.em ]} : gmap nat EmbeddedMetric)
        = Some (1%nat, h1) ∧
        WithProperty 1%nat "requestId" (GoString "second") h1
        = Some (1%nat,
                <[1%nat := mkEmbeddedMetric (metrics sample.em)
                             (Some (<["requestId" := GoString "second"]>
                                      (entries_map (properties sample.em))))]>
                  ({[ 1%nat := sample.em ]} : gmap nat EmbeddedMetric)).
Proof.
  assert (({[ 1%nat := sample.em ]} : gmap nat EmbeddedMetric) !! 1%nat
          = Some sample.em) as H1 by reflexivity.
  split; [exact H1|].
  exact (proj1 (C7_property_overwrite _ _ _ "requestId" (GoString "first")
                  (GoString "second") H1)).
Defined.

(* ===================================================================== *)
(** ** Two encodings of one state *)
(* ===================================================================== *)

Lemma pick_nil {A} seed : pick seed ([] : list A) = [].
Proof. by destruct seed. Qed.

Lemma pick_short {A} seed (l : list A) : (length l ≤ 1)%nat → pick seed l = l.
Proof.
  destruct l as [|x [|y l]]; simpl; intros Hl; [apply pick_nil | | lia].
  destruct seed as [|k seed]; [done|].
  change (pick (k :: seed) [x])
    with (match [x] !! (k `mod` 1)%nat with
          | Some y => y :: pick seed (delete (k `mod` 1)%nat [x])
          | None => [x]
          end).
  rewrite Nat.mod_1_r. simpl. by rewrite pick_nil.
Qed.

Lemma range_short {V} seed (m : GoMap V) :
  (go_len m ≤ 1)%nat → range seed m = go_entries m.
Proof. intros Hm. apply pick_short. by rewrite go_entries_length. Qed.

Lemma elements_of_Forall2 seeds1 seeds2 ds :
  Forall2 (λ e1 e2, emf.Namespace e1 = emf.Namespace e2
                    ∧ emf.Metrics e1 ≡ₚ emf.Metrics e2
                    ∧ emf.Dimensions e1 ≡ₚ emf.Dimensions e2)
          (elements_of seeds1 ds) (elements_of seeds2 ds).
Proof.
  revert seeds1 seeds2. induction ds as [|d ds IH]; intros seeds1 seeds2; simpl.
  - constructor.
  - constructor; [|apply IH]. simpl. split; [done|].
    split; by rewrite !range_Permutation.
Qed.

Lemma elements_of_short seeds1 seeds2 ds :
  (∀ d, d ∈ ds → (go_len (Metrics d) ≤ 1)%nat ∧ (go_len (Dimensions d) ≤ 1)%nat) →
  elements_of seeds1 ds = elements_of seeds2 ds.
Proof.
  revert seeds1 seeds2. induction ds as [|d ds IH]; intros seeds1 seeds2 H; [done|].
  simpl. destruct (H d ltac:(left)) as [Hm Hd].
  rewrite !range_short by done. f_equal. apply IH. intros; apply H; by right.
Qed.

(** C8, as the code has it. Two encodings of one state at one clock reading
    hand [json.Marshal] maps that agree on every key but [_aws], and under
    [_aws] the same [Timestamp] and, directive by directive, elements with
    the same [Namespace] whose [Metrics] and [Dimensions] arrays are
    permutations of one another: their order follows the order in which
    [range] visits the maps of the directive, which the language leaves
    open. The bytes are the same when no directive has more than one metric
    or more than one dimension. *)
Theorem C8_deterministic_up_to_order envMap r1 r2 em :
  now r1 = now r2 →
  ∃ aws1 aws2 merged,
    MarshalJSON_jsonMap envMap r1 em = <["_aws" := GoEmfAWS aws1]> merged ∧
    MarshalJSON_jsonMap envMap r2 em = <["_aws" := GoEmfAWS aws2]> merged ∧
    MarshalJSON envMap r1 em = json_Marshal_map (<["_aws" := GoEmfAWS aws1]> merged) ∧
    MarshalJSON envMap r2 em = json_Marshal_map (<["_aws" := GoEmfAWS aws2]> merged) ∧
    emf.Timestamp aws1 = emf.Timestamp aws2 ∧
    Forall2 (λ e1 e2, emf.Namespace e1 = emf.Namespace e2
                      ∧ emf.Metrics e1 ≡ₚ emf.Metrics e2
                      ∧ emf.Dimensions e1 ≡ₚ emf.Dimensions e2)
            (emf.CloudWatchMetrics aws1) (emf.CloudWatchMetrics aws2) ∧
    ((∀ d, d ∈ metrics em →
           (go_len (Metrics d) ≤ 1)%nat ∧ (go_len (Dimensions d) ≤ 1)%nat) →
     MarshalJSON envMap r1 em = MarshalJSON envMap r2 em).
Proof.
  intros Hnow. unfold MarshalJSON. rewrite !MarshalJSON_jsonMap_eq.
  eexists _, _, _. split_and!; try reflexivity.
  - simpl. by rewrite Hnow.
  - apply elements_of_Forall2.
  - intros Hshort. rewrite Hnow.
    by rewrite (elements_of_short (seed_directives r1) (seed_directives r2)).
Qed.

Lemma C8_deterministic_up_to_order_witness :
  now sample.run = now sample.rerun ∧
  ∃ aws1 aws2 merged,
    MarshalJSON_jsonMap sample.envMap sample.run sample.two_metrics
    = <["_aws" := GoEmfAWS aws1]> merged ∧
    MarshalJSON_jsonMap sample.envMap sample.rerun sample.two_metrics
    = <["_aws" := GoEmfAWS aws2]> merged ∧
    emf.Timestamp aws1 = emf.Timestamp aws2.
Proof.
  assert (now sample.run = now sample.rerun) as H by reflexivity.
  split; [exact H|].
  destruct (C8_deterministic_up_to_order sample.envMap _ _ sample.two_metrics H)
    as (aws1 & aws2 & merged & H1 & H2 & _ & _ & Ht & _).
  exists aws1, aws2, merged. split_and!; assumption.
Defined.

(** C8 as stated fails: at one clock reading the same state encodes to
    different bytes, the two metrics of the directive in either order. *)
Lemma C8_counterexample :
  now sample.run = now sample.rerun ∧
  is_Ok (MarshalJSON sample.envMap sample.run sample.two_metrics) = true ∧
  is_Ok (MarshalJSON sample.envMap sample.rerun sample.two_metrics) = true ∧
  MarshalJSON sample.envMap sample.run sample.two_metrics
  ≠ MarshalJSON sample.envMap sample.rerun sample.two_metrics ∧
  result_map (λ doc, member "_aws" doc ≫= member "CloudWatchMetrics")
    (MarshalJSON_document sample.envMap sample.run sample.two_metrics)
  = Ok (Some (JArray [element_json (mkMetricDirective None None "Pair") []
                        [metric_entry ("a", mkMetricValue GoNil UnitCount);
                         metric_entry ("b", mkMetricValue GoNil UnitCount)]])) ∧
  result_map (λ doc, member "_aws" doc ≫= member "CloudWatchMetrics")
    (MarshalJSON_document sample.envMap sample.rerun sample.two_metrics)
  = Ok (Some (JArray [element_json (mkMetricDirective None None "Pair") []
                        [metric_entry ("b", mkMetricValue GoNil UnitCount);
                         metric_entry ("a", mkMetricValue GoNil UnitCount)]])).
Proof. vm_compute. split_and!; try reflexivity. discriminate. Qed.

(* ===================================================================== *)
(** ** The timestamp *)
(* ===================================================================== *)

Lemma MarshalJSON_document_Timestamp envMap r em doc :
  MarshalJSON_document envMap r em = Ok doc →
  member "_aws" doc ≫= member "Timestamp" = Some (JNumber (now r ÷ time_Millisecond)).
Proof. intros Hdoc. by rewrite (MarshalJSON_document_aws _ _ _ _ Hdoc). Qed.

(** C9, as the code has it. [Timestamp] is the clock reading of the encode
    call in whole milliseconds, the nanoseconds divided by a million, and
    depends on nothing else. Two encodings of one object at clock readings
    in call order have timestamps in that order, which may be equal: they
    differ for certain only when the readings are a millisecond or more
    apart. *)
Theorem C9_timestamp_non_decreasing envMap r1 r2 em doc1 doc2 :
  MarshalJSON_document envMap r1 em = Ok doc1 →
  MarshalJSON_document envMap r2 em = Ok doc2 →
  (now r1 ≤ now r2)%Z →
  member "_aws" doc1 ≫= member "Timestamp" = Some (JNumber (now r1 ÷ 1000000)) ∧
  member "_aws" doc2 ≫= member "Timestamp" = Some (JNumber (now r2 ÷ 1000000)) ∧
  (now r1 ÷ 1000000 ≤ now r2 ÷ 1000000)%Z ∧
  ((0 ≤ now r1)%Z → (now r1 + 1000000 ≤ now r2)%Z →
   (now r1 ÷ 1000000 < now r2 ÷ 1000000)%Z).
Proof.
  intros H1 H2 Hle. split_and!.
  - by eapply MarshalJSON_document_Timestamp.
  - by eapply MarshalJSON_document_Timestamp.
  - by apply Z.quot_le_mono.
  - intros H0 Hgap. rewrite !Z.quot_div_nonneg by lia.
    apply Z.lt_le_trans with ((now r1 + 1 * 1000000) `div` 1000000).
    + rewrite Z.div_add by lia. lia.
    + apply Z.div_le_mono; lia.
Qed.

Lemma C9_timestamp_non_decreasing_witness :
  MarshalJSON_document sample.envMap sample.run sample.em = Ok sample.doc ∧
  MarshalJSON_document sample.envMap sample.later sample.em = Ok sample.later_doc ∧
  (now sample.run ≤ now sample.later)%Z ∧
  member "_aws" sample.doc ≫= member "Timestamp"
  = Some (JNumber (now sample.run ÷ 1000000)) ∧
  member "_aws" sample.later_doc ≫= member "Timestamp"
  = Some (JNumber (now sample.later ÷ 1000000)) ∧
  (now sample.run ÷ 1000000 ≤ now sample.later ÷ 1000000)%Z.
Proof.
  assert (MarshalJSON_document sample.envMap sample.run sample.em = Ok sample.doc)
    as H1 by (vm_compute; reflexivity).
  assert (MarshalJSON_document sample.envMap sample.later sample.em
          = Ok sample.later_doc) as H2 by (vm_compute; reflexivity).
  assert (now sample.run ≤ now sample.later)%Z as Hle by (vm_compute; discriminate).
  split_and!; [exact H1 | exact H2 | exact Hle | | |].
  - exact (proj1 (C9_timestamp_non_decreasing _ _ _ _ _ _ H1 H2 Hle)).
  - exact (proj1 (proj2 (C9_timestamp_non_decreasing _ _ _ _ _ _ H1 H2 Hle))).
  - exact (proj1 (proj2 (proj2 (C9_timestamp_non_decreasing _ _ _ _ _ _ H1 H2 Hle)))).
Defined.

(** C9 as stated fails: an encoding half a millisecond after another has
    the same timestamp. *)
Lemma C9_counterexample :
  (now sample.run < now sample.later)%Z ∧
  result_map (λ doc, member "_aws" doc ≫= member "Timestamp")
    (MarshalJSON_document sample.envMap sample.run sample.em)
  = Ok (Some (JNumber 1580515200123)) ∧
  result_map (λ doc, member "_aws" doc ≫= member "Timestamp")
    (MarshalJSON_document sample.envMap sample.later sample.em)
  = Ok (Some (JNumber 1580515200123)).
Proof. vm_compute. split_and!; reflexivity. Qed.

(* ===================================================================== *)
(** ** The environment snapshot *)
(* ===================================================================== *)

Lemma Split_not_nil s sep : Split s sep ≠ [].
Proof.
  induction s as [|c s IH]; simpl; [done|].
  destruct (Ascii.eqb c sep); [done|]. by destruct (Split s sep).
Qed.

Lemma Split_Contains s sep :
  Contains s sep = true → (2 ≤ length (Split s sep))%nat.
Proof.
  induction s as [|c s IH]; simpl; [done|].
  destruct (Ascii.eqb c sep); simpl.
  - intros _. pose proof (Split_not_nil s sep). destruct (Split s sep); simpl; [done | lia].
  - intros H. specialize (IH H). destruct (Split s sep); simpl in *; lia.
Qed.

Lemma Split_entry name value sep :
  Contains name sep = false →
  Split (name +:+ String sep value) sep = name :: Split value sep.
Proof.
  induction name as [|c name IH]; intros Hn.
  - change ("" +:+ String sep value) with (String sep value). simpl.
    by rewrite Ascii.eqb_refl.
  - change (String c name +:+ String sep value)
      with (String c (name +:+ String sep value)).
    simpl in *. apply orb_false_iff in Hn as [Hc Hn]. rewrite Hc, IH by done. done.
Qed.

Lemma init_step_skips envMap name value :
  Contains name "=" = false → Contains value "=" = true →
  init_step envMap (name +:+ String "=" value) = envMap.
Proof.
  intros Hn Hv. unfold init_step. rewrite Split_entry by done.
  apply Split_Contains in Hv. by destruct (Split value "=") as [|? [|? ?]]; simpl in *; try lia.
Qed.

Lemma init_step_keeps envMap e k v :
  Split e "=" = [k; v] → init_step envMap e = <[k := v]> envMap.
Proof. unfold init_step. by intros ->. Qed.

Lemma init_step_lookup envMap e k v :
  init_step envMap e !! k = Some v →
  Split e "=" = [k; v] ∨ envMap !! k = Some v.
Proof.
  unfold init_step.
  destruct (Split e "=") as [|k' [|v' [|? ?]]]; try by right.
  intros H. rewrite lookup_insert in H.
  case_decide; simplify_eq; [by left | by right].
Qed.

Lemma foldl_init_step_lookup base envVars k v :
  foldl init_step base envVars !! k = Some v →
  (∃ e, e ∈ envVars ∧ Split e "=" = [k; v]) ∨ base !! k = Some v.
Proof.
  revert base. induction envVars as [|e envVars IH]; intros base H; [by right|].
  simpl in H. apply IH in H as [(e' & He' & Hs)|H].
  - left. exists e'. split; [by right | done].
  - apply init_step_lookup in H as [H|H]; [|by right].
    left. exists e. split; [by left | done].
Qed.

Lemma init_lookup envVars k v :
  init envVars !! k = Some v → ∃ e, e ∈ envVars ∧ Split e "=" = [k; v].
Proof.
  intros H. apply foldl_init_step_lookup in H as [H|H]; [done|].
  by rewrite lookup_empty in H.
Qed.

(** C10. The snapshot [init] builds holds a name only through an entry of
    the environment that splits into exactly two parts on the equals sign,
    and such an entry is stored. An entry whose value holds an equals sign
    is skipped, so a variable that the environment defines once, with such a
    value, is missing from the snapshot and reads as the empty string; this
    is then what [MarshalJSON] writes under the reserved key of the log
    group or the log stream, and what the encoded document holds there when
    nothing else is written under that key. *)
Theorem C10_value_with_equals_sign envVars name value :
  Contains name "=" = false → Contains value "=" = true →
  name +:+ String "=" value ∈ envVars →
  (∀ e, e ∈ envVars → e ≠ name +:+ String "=" value → hd "" (Split e "=") ≠ name) →
  (∀ k v, init envVars !! k = Some v → ∃ e, e ∈ envVars ∧ Split e "=" = [k; v]) ∧
  (∀ envMap e k v, Split e "=" = [k; v] → init_step envMap e = <[k := v]> envMap) ∧
  (∀ envMap, init_step envMap (name +:+ String "=" value) = envMap) ∧
  init envVars !! name = None ∧
  env_index (init envVars) name = "" ∧
  (name = "AWS_LAMBDA_LOG_GROUP_NAME" →
   jsonMap_literal (init envVars) !! "log_group_name" = Some (GoString "") ∧
   ∀ r em doc, MarshalJSON_document (init envVars) r em = Ok doc →
               "log_group_name" ∉ (flat_writes em).*1 →
               member "log_group_name" doc = Some (JString "")) ∧
  (name = "AWS_LAMBDA_LOG_STREAM_NAME" →
   jsonMap_literal (init envVars) !! "log_steam_name" = Some (GoString "") ∧
   ∀ r em doc, MarshalJSON_document (init envVars) r em = Ok doc →
               "log_steam_name" ∉ (flat_writes em).*1 →
               member "log_steam_name" doc = Some (JString "")).
Proof.
  intros Hn Hv Hin Honce.
  assert (init envVars !! name = None) as Hnone.
  { destruct (init envVars !! name) as [v|] eqn:E; [|done]. exfalso.
    apply init_lookup in E as (e & He & Hs).
    destruct (decide (e = name +:+ String "=" value)) as [->|Hne].
    - rewrite Split_entry in Hs by done. injection Hs as Hs.
      apply Split_Contains in Hv. rewrite Hs in Hv. simpl in Hv. lia.
    - apply (Honce e He Hne). by rewrite Hs. }
  assert (env_index (init envVars) name = "") as Hidx.
  { unfold env_index. by rewrite Hnone. }
  split_and!.
  - apply init_lookup.
  - intros envMap e k v. apply init_step_keeps.
  - intros envMap. by apply init_step_skips.
  - done.
  - done.
  - intros ->. assert (jsonMap_literal (init envVars) !! "log_group_name"
                       = Some (GoString "")) as Hlit.
    { unfold jsonMap_literal. rewrite Hidx. done. }
    split; [done|]. intros r em doc Hdoc Hw.
    by eapply MarshalJSON_document_untouched.
  - intros ->. assert (jsonMap_literal (init envVars) !! "log_steam_name"
                       = Some (GoString "")) as Hlit.
    { unfold jsonMap_literal. rewrite Hidx. done. }
    split; [done|]. intros r em doc Hdoc Hw.
    by eapply MarshalJSON_document_untouched.
Qed.

Lemma C10_value_with_equals_sign_witness :
  Contains "AWS_LAMBDA_LOG_GROUP_NAME" "=" = false ∧
  Contains "/aws/lambda/a=b" "=" = true ∧
  "AWS_LAMBDA_LOG_GROUP_NAME" +:+ String "=" "/aws/lambda/a=b" ∈ sample.environ_eq ∧
  init sample.environ_eq !! "AWS_LAMBDA_LOG_GROUP_NAME" = None ∧
  jsonMap_literal (init sample.environ_eq) !! "log_group_name" = Some (GoString "").
Proof.
  assert (Contains "AWS_LAMBDA_LOG_GROUP_NAME" "=" = false) as H1 by reflexivity.
  assert (Contains "/aws/lambda/a=b" "=" = true) as H2 by reflexivity.
  assert ("AWS_LAMBDA_LOG_GROUP_NAME" +:+ String "=" "/aws/lambda/a=b"
          ∈ sample.environ_eq) as H3 by (right; left).
  assert (∀ e, e ∈ sample.environ_eq →
               e ≠ "AWS_LAMBDA_LOG_GROUP_NAME" +:+ String "=" "/aws/lambda/a=b" →
               hd "" (Split e "=") ≠ "AWS_LAMBDA_LOG_GROUP_NAME") as H4.
  { intros e He Hne. unfold sample.environ_eq in He.
    repeat (apply elem_of_cons in He as [->|He]); try discriminate.
    - by destruct Hne.
    - by apply elem_of_nil in He. }
  split_and!; [exact H1 | exact H2 | exact H3 | |].
  - exact (proj1 (proj2 (proj2 (proj2
             (C10_value_with_equals_sign _ _ _ H1 H2 H3 H4))))).
  - exact (proj1 (proj1 (proj2 (proj2 (proj2 (proj2 (proj2
             (C10_value_with_equals_sign _ _ _ H1 H2 H3 H4)))))) eq_refl)).
Defined.

(** The snapshot of the sample environment with an equals sign in the log
    group name, and the reserved field of the document. *)
Example snapshot_without_log_group :
  size (init sample.environ_eq) = 2%nat ∧
  init sample.environ_eq !! "PATH" = Some "/usr/bin" ∧
  init sample.environ_eq !! "AWS_LAMBDA_LOG_STREAM_NAME"
  = Some "2020/02/01/[$LATEST]abcdef" ∧
  init sample.environ_eq !! "AWS_LAMBDA_LOG_GROUP_NAME" = None ∧
  result_map (member "log_group_name")
    (MarshalJSON_document (init sample.environ_eq) sample.run sample.em)
  = Ok (Some (JString "")).
Proof. vm_compute. split_and!; reflexivity. Qed.

(* ===================================================================== *)
(** ** More on the environment snapshot *)
(* ===================================================================== *)

Lemma Split_no_sep s sep : Contains s sep = false → Split s sep = [s].
Proof.
  induction s as [|c s IH]; simpl; [done|].
  intros [Hc Hs]%orb_false_iff. rewrite Hc, IH by done. done.
Qed.

Lemma Split_length s sep : length (Split s sep) = S (count_byte sep s).
Proof.
  induction s as [|c s IH]; simpl; [done|].
  destruct (Ascii.eqb c sep); simpl; [by rewrite IH|].
  pose proof (Split_not_nil s sep). destruct (Split s sep); simpl in *; [done | lia].
Qed.

Lemma count_byte_Contains s sep : count_byte sep s = 0%nat ↔ Contains s sep = false.
Proof.
  induction s as [|c s IH]; simpl; [done|].
  destruct (Ascii.eqb c sep); simpl; [split; [lia | done] | done].
Qed.

Lemma Split_one s sep v : Split s sep = [v] → s = v ∧ Contains v sep = false.
Proof.
  intros H. assert (count_byte sep s = 0%nat) as Hc.
  { pose proof (Split_length s sep) as Hl. rewrite H in Hl. simpl in Hl. lia. }
  apply count_byte_Contains in Hc. rewrite Split_no_sep in H by done.
  injection H as <-. done.
Qed.

Lemma Split_two s sep k v :
  Split s sep = [k; v] →
  s = k +:+ String sep v ∧ Contains k sep = false ∧ Contains v sep = false.
Proof.
  revert k. induction s as [|c s IH]; intros k; simpl; [done|].
  destruct (Ascii.eqb c sep) eqn:Hc.
  - intros H. injection H as <- Hs. apply Ascii.eqb_eq in Hc as ->.
    apply Split_one in Hs as [-> Hv]. done.
  - destruct (Split s sep) as [|p ps] eqn:Hs; [done|].
    intros H. injection H as <- ->. destruct (IH p eq_refl) as (-> & Hp & Hv).
    split; [done|]. simpl. by rewrite Hc, Hp.
Qed.

Lemma foldl_init_step_other base envVars k :
  (∀ e v, e ∈ envVars → Split e "=" ≠ [k; v]) →
  foldl init_step base envVars !! k = base !! k.
Proof.
  revert base. induction envVars as [|e envVars IH]; intros base H; [done|].
  simpl. rewrite IH by (intros; apply H; by right).
  unfold init_step. destruct (Split e "=") as [|k' [|v' [|? ?]]] eqn:Hs; try done.
  apply lookup_insert_ne. intros ->. by apply (H e v'); [left|].
Qed.

(** X1. The snapshot holds, under a name, the value of the last entry of
    the environment that defines the name, when name and value hold no
    equals sign. *)
Theorem X1_init_last_definition envVars1 envVars2 name value :
  Contains name "=" = false → Contains value "=" = false →
  (∀ e v, e ∈ envVars2 → Split e "=" ≠ [name; v]) →
  init (envVars1 ++ (name +:+ String "=" value) :: envVars2) !! name = Some value ∧
  env_index (init (envVars1 ++ (name +:+ String "=" value) :: envVars2)) name = value.
Proof.
  intros Hn Hv Hlast.
  assert (init (envVars1 ++ (name +:+ String "=" value) :: envVars2) !! name
          = Some value) as H.
  { unfold init. rewrite foldl_app. simpl.
    rewrite foldl_init_step_other by done.
    unfold init_step at 1. rewrite Split_entry, Split_no_sep by done.
    apply lookup_insert_eq. }
  split; [done|]. unfold env_index. by rewrite H.
Qed.

Lemma X1_init_last_definition_witness :
  Contains "STAGE" "=" = false ∧ Contains "prod" "=" = false ∧
  init (["STAGE=dev"] ++ ("STAGE" +:+ String "=" "prod") :: ["PATH=/usr/bin"]) !! "STAGE"
  = Some "prod".
Proof.
  assert (Contains "STAGE" "=" = false) as H1 by reflexivity.
  assert (Contains "prod" "=" = false) as H2 by reflexivity.
  assert (∀ e v, e ∈ ["PATH=/usr/bin"] → Split e "=" ≠ ["STAGE"; v]) as H3.
  { intros e v He. apply list_elem_of_singleton in He as ->. discriminate. }
  split_and!; [exact H1 | exact H2 |].
  exact (proj1 (X1_init_last_definition ["STAGE=dev"] _ _ _ H1 H2 H3)).
Defined.

(** X2. An entry of the environment changes the snapshot only when it
    holds exactly one equals sign: it is then stored under the text before
    the sign with the text after it. An entry with no equals sign or with
    several leaves the snapshot as it is. *)
Theorem X2_init_step_one_equals_sign envMap e :
  (count_byte "=" e ≠ 1%nat → init_step envMap e = envMap) ∧
  (count_byte "=" e = 1%nat →
   ∃ k v, e = k +:+ String "=" v ∧ Contains k "=" = false ∧ Contains v "=" = false
          ∧ init_step envMap e = <[k := v]> envMap).
Proof.
  pose proof (Split_length e "=") as Hl. unfold init_step. split; intros Hc.
  - destruct (Split e "=") as [|k [|v [|? ?]]]; simpl in Hl; try done. lia.
  - destruct (Split e "=") as [|k [|v [|? ?]]] eqn:Hs; simpl in Hl; try lia.
    apply Split_two in Hs as (-> & Hk & Hv). by exists k, v.
Qed.

(* ===================================================================== *)
(** ** More on the builder *)
(* ===================================================================== *)

(** X3. Properties attached under different keys can be attached in either
    order: the two sequences of [WithProperty] calls leave the same heap.
    The calls write the two keys of the receiver's property bag and nothing
    else of it: the other keys of the bag keep their values, and the
    directives of the receiver, as those of every object, stay as they
    are. *)
Theorem X3_WithProperty_commutes h p em k1 v1 k2 v2 :
  h !! p = Some em → k1 ≠ k2 →
  ∃ h', (WithProperty p k1 v1 h ≫= λ '(q, h1), WithProperty q k2 v2 h1) = Some (p, h') ∧
        (WithProperty p k2 v2 h ≫= λ '(q, h1), WithProperty q k1 v1 h1) = Some (p, h') ∧
        (∀ q, metrics <$> h' !! q = metrics <$> h !! q) ∧
        ∃ em', h' !! p = Some em' ∧ metrics em' = metrics em ∧
               ∀ k, k ≠ k1 → k ≠ k2 →
                    entries_map (properties em') !! k = entries_map (properties em) !! k.
Proof.
  intros Hp Hne. eexists. split_and!.
  - rewrite (WithProperty_eq _ _ _ _ _ Hp). simpl.
    erewrite WithProperty_eq by apply lookup_insert_eq. simpl.
    by rewrite insert_insert_eq.
  - rewrite (WithProperty_eq _ _ _ _ _ Hp). simpl.
    erewrite WithProperty_eq by apply lookup_insert_eq. simpl.
    rewrite insert_insert_eq. by rewrite (insert_insert_ne _ k1 k2).
  - intros q. destruct (decide (q = p)) as [->|Hq].
    + by rewrite lookup_insert_eq, Hp.
    + by rewrite lookup_insert_ne.
  - eexists. split; [apply lookup_insert_eq|]. split; [done|].
    intros k H1 H2. simpl. by rewrite !lookup_insert_ne.
Qed.

Lemma X3_WithProperty_commutes_witness :
  ({[ 1%nat := sample.em ]} : gmap nat EmbeddedMetric) !! 1%nat = Some sample.em ∧
  "user" ≠ "region" ∧
  ∃ h', (WithProperty 1%nat "user" (GoString "u") {[ 1%nat := sample.em ]}
           ≫= λ '(q, h1), WithProperty q "region" (GoString "r") h1) = Some (1%nat, h') ∧
        (WithProperty 1%nat "region" (GoString "r") {[ 1%nat := sample.em ]}
           ≫= λ '(q, h1), WithProperty q "user" (GoString "u") h1) = Some (1%nat, h').
Proof.
  assert (({[ 1%nat := sample.em ]} : gmap nat EmbeddedMetric) !! 1%nat
          = Some sample.em) as H1 by reflexivity.
  assert ("user" ≠ "region") as H2 by discriminate.
  split_and!; [exact H1 | exact H2 |].
  destruct (X3_WithProperty_commutes _ _ _ "user" (GoString "u") "region"
              (GoString "r") H1 H2) as (h' & Ha & Hb & _).
  exists h'. split; [exact Ha | exact Hb].
Defined.

(** X4. [WithProperty] on an object whose property map is nil, such as a
    zero-value [EmbeddedMetric], does not fail: it makes the map, which then
    holds the one property; the encoded document of the object holds the
    property's value whenever the record encodes and the key is not [_aws]. *)
Theorem X4_WithProperty_nil_map h p em key value :
  h !! p = Some em → properties em = None →
  WithProperty p key value h
  = Some (p, <[p := mkEmbeddedMetric (metrics em) (Some {[ key := value ]})]> h) ∧
  (metrics em = [] → key ≠ "_aws" →
   ∀ envMap r doc,
     MarshalJSON_document envMap r (mkEmbeddedMetric [] (Some {[ key := value ]})) = Ok doc →
     ∃ j, encode value = Ok j ∧ member key doc = Some j).
Proof.
  intros Hp Hnil. split.
  - rewrite (WithProperty_eq _ _ _ _ _ Hp), Hnil. simpl. by rewrite insert_empty.
  - intros _ Hk envMap r doc Hdoc.
    pose proof (MarshalJSON_document_member _ _ _ _ key Hdoc Hk) as Hm.
    assert (flat_writes (mkEmbeddedMetric [] (Some {[ key := value ]}))
            = [(key, value)]) as Hw.
    { unfold flat_writes. simpl. by rewrite map_to_list_singleton. }
    rewrite Hw in Hm. unfold last_write_wins in Hm. simpl in Hm.
    by rewrite lookup_insert_eq in Hm.
Qed.

Lemma X4_WithProperty_nil_map_witness :
  ({[ 7%nat := mkEmbeddedMetric [] None ]} : gmap nat EmbeddedMetric) !! 7%nat
  = Some (mkEmbeddedMetric [] None) ∧
  properties (mkEmbeddedMetric [] None) = None ∧
  WithProperty 7%nat "requestId" (GoString "abc") {[ 7%nat := mkEmbeddedMetric [] None ]}
  = Some (7%nat, <[7%nat := mkEmbeddedMetric [] (Some {[ "requestId" := GoString "abc" ]})]>
                   {[ 7%nat := mkEmbeddedMetric [] None ]}).
Proof.
  assert (({[ 7%nat := mkEmbeddedMetric [] None ]} : gmap nat EmbeddedMetric) !! 7%nat
          = Some (mkEmbeddedMetric [] None)) as H1 by reflexivity.
  assert (properties (mkEmbeddedMetric [] None) = None) as H2 by reflexivity.
  split_and!; [exact H1 | exact H2 |].
  exact (proj1 (X4_WithProperty_nil_map _ _ _ "requestId" (GoString "abc") H1 H2)).
Defined.

(** X5. [NewMetricDirective], for every namespace and every dimensions map,
    nil or not, changes the receiver only, keeps its properties and its
    earlier directives at their positions, and returns the position of the
    new directive, the last one. The new directive has the namespace and
    the dimensions of the call, no metric, and never a nil map. Not yet
    filled, it encodes as an element with the namespace, an empty [Metrics]
    array and one single-name group per dimension of the call: two empty
    arrays when the call had no dimension. *)
Theorem X5_NewMetricDirective_frame h p em ns (dims : GoMap string) :
  h !! p = Some em →
  ∃ md h',
    NewMetricDirective p ns dims h = Some (length (metrics em), h') ∧
    h' !! p = Some (mkEmbeddedMetric (metrics em ++ [md]) (properties em)) ∧
    (∀ q, q ≠ p → h' !! q = h !! q) ∧
    (∀ i d, metrics em !! i = Some d → (metrics em ++ [md]) !! i = Some d) ∧
    (metrics em ++ [md]) !! length (metrics em) = Some md ∧
    namespace md = ns ∧
    Dimensions md = Some (entries_map dims) ∧ Metrics md = Some ∅ ∧
    ∀ envMap r doc,
      MarshalJSON_document envMap r
        (mkEmbeddedMetric (metrics em ++ [md]) (properties em)) = Ok doc →
      ∃ elems ds,
        member "_aws" doc ≫= member "CloudWatchMetrics" = Some (JArray elems) ∧
        length elems = S (length (metrics em)) ∧
        elems !! length (metrics em)
        = Some (JObject [("Namespace", JString ns);
                         ("Dimensions", JArray ds);
                         ("Metrics", JArray [])]) ∧
        length ds = go_len dims ∧
        ds ≡ₚ dimension_group <$> go_entries dims ∧
        (go_len dims = 0%nat → ds = []).
Proof.
  intros Hp. unfold NewMetricDirective. rewrite Hp. simpl.
  set (md := mkMetricDirective
               (match dims with None => Some ∅ | Some d => Some d end) (Some ∅) ns).
  assert (go_len (Dimensions md) = go_len dims) as Hlen by by destruct dims.
  assert (go_entries (Dimensions md) = go_entries dims) as Hent by by destruct dims.
  exists md, (<[p := mkEmbeddedMetric (metrics em ++ [md]) (properties em)]> h).
  split; [reflexivity|]. split_and!.
  - apply lookup_insert_eq.
  - intros q Hq. by rewrite lookup_insert_ne.
  - intros i d Hi. by apply lookup_app_l_Some.
  - apply list_lookup_middle. done.
  - done.
  - by destruct dims.
  - done.
  - intros envMap r doc Hdoc.
    destruct (CloudWatchMetrics_elements _ _ _ _ Hdoc) as (elems & He & Hl & Hall).
    destruct (Hall (length (metrics em)) md)
      as (ds & ms & Hi & Hms & _ & _ & Hds & Hperm & _).
    { simpl. by rewrite list_lookup_middle. }
    exists elems, ds. split; [done|]. split.
    { rewrite Hl. simpl. rewrite length_app. simpl. lia. }
    split.
    { rewrite Hi. simpl in Hms. by destruct ms. }
    split; [by rewrite Hds|]. split; [by rewrite Hperm, Hent|].
    intros H0. rewrite Hlen, H0 in Hds. by destruct ds.
Qed.

Lemma X5_NewMetricDirective_frame_witness :
  sample.heap !! 1%nat = Some sample.wide ∧
  ∃ md h',
    NewMetricDirective 1%nat "Orders" (Some {[ "Service" := "orders" ]}) sample.heap
    = Some (1%nat, h') ∧
    h' !! 1%nat = Some (mkEmbeddedMetric (metrics sample.wide ++ [md])
                                         (properties sample.wide)) ∧
    Dimensions md = Some {[ "Service" := "orders" ]}.
Proof.
  assert (sample.heap !! 1%nat = Some sample.wide) as H1 by reflexivity.
  split; [exact H1|].
  destruct (X5_NewMetricDirective_frame _ _ _ "Orders"
              (Some {[ "Service" := "orders" ]}) H1)
    as (md & h' & Ha & Hb & _ & _ & _ & _ & Hd & _).
  exists md, h'. split_and!; [exact Ha | exact Hb | exact Hd].
Defined.

Lemma encode_map_Sorted m doc : encode_map m = Ok doc → Sorted String.le (keys doc).
Proof.
  unfold encode_map. intros H.
  destruct (encode_members _) as [ms|] eqn:E; [|done]. injection H as <-.
  apply encode_members_keys in E. simpl. rewrite E.
  apply Sorted_fmap with (R1 := key_le); [by intros [??] [??]|].
  apply Sorted_merge_sort. intros [k1 ?] [k2 ?]. apply (total String.le).
Qed.

(** X6. [NewEmbeddedMetric] returns an address that was not in use and
    leaves the objects in place; [NewEmbeddedMetricWithProperties] with a nil
    map does the same. The new object always encodes: its document has
    exactly the keys [_aws], [log_group_name] and [log_steam_name], in this
    order, and an empty [CloudWatchMetrics] array. *)
Theorem X6_NewEmbeddedMetric_fresh h envMap r :
  let p := (NewEmbeddedMetric h).1 in
  let h' := (NewEmbeddedMetric h).2 in
  h !! p = None ∧
  h' !! p = Some (mkEmbeddedMetric [] (Some ∅)) ∧
  (∀ q, q ≠ p → h' !! q = h !! q) ∧
  NewEmbeddedMetricWithProperties None h = NewEmbeddedMetric h ∧
  ∃ doc, MarshalJSON_document envMap r (mkEmbeddedMetric [] (Some ∅)) = Ok doc ∧
         keys doc = ["_aws"; "log_group_name"; "log_steam_name"] ∧
         member "_aws" doc ≫= member "CloudWatchMetrics" = Some (JArray []).
Proof.
  intros p h'. split_and!.
  - apply not_elem_of_dom. apply is_fresh.
  - apply lookup_insert_eq.
  - intros q Hq. unfold h', NewEmbeddedMetric. simpl. by rewrite lookup_insert_ne.
  - done.
  - destruct (MarshalJSON_document_total envMap r (mkEmbeddedMetric [] (Some ∅)))
      as [doc Hdoc].
    { intros k v _ Hk.
      unfold flat_writes in Hk. simpl in Hk. rewrite map_to_list_empty in Hk.
      simpl in Hk. unfold jsonMap_literal in Hk.
      rewrite !lookup_insert in Hk. repeat case_decide; by simplify_eq. }
    exists doc. split; [done|]. split.
    + apply (Sorted_unique String.le).
      * by eapply encode_map_Sorted.
      * repeat constructor.
      * destruct (encode_map_keys _ _ Hdoc) as [-> _].
        rewrite MarshalJSON_jsonMap_eq. unfold flat_writes. simpl.
        rewrite map_to_list_empty. simpl. unfold jsonMap_literal.
        rewrite !map_to_list_insert; [simpl|done..].
        rewrite map_to_list_empty. simpl. apply perm_skip, perm_swap.
    + destruct (CloudWatchMetrics_elements _ _ _ _ Hdoc) as (elems & He & Hl & _).
      rewrite He. by destruct elems.
Qed.

(* ===================================================================== *)
(** ** More on publishing *)
(* ===================================================================== *)

Lemma merged_properties_entries props adds :
  entries_map (merged_properties props adds)
  = last_write_wins (entries_map props) adds.
Proof.
  revert props. induction adds as [|[k v] adds IH]; intros props; [done|].
  unfold merged_properties, last_write_wins in *. simpl. by rewrite IH.
Qed.

Lemma merged_properties_range props seed (adds : GoMap GoValue) :
  entries_map (merged_properties props (range seed adds))
  = entries_map adds ∪ entries_map props.
Proof. rewrite merged_properties_entries. apply last_write_wins_range. Qed.

Lemma range_nil_map {V} seed : range seed (None : GoMap V) = [].
Proof. apply pick_nil. Qed.

(** X7. The additional properties of a publish call stay in the object: a
    later call without additional properties leaves the heap as the first
    call left it and hands its sink the record of the object with those
    properties in its bag. The directives of the object, as those of every
    object, are as before. *)
Theorem X7_additional_properties_persist {W} `{Writer W} envMap r1 r2 h
    (w : World W) p em adds sink :
  h !! p = Some em →
  ∃ h1 w1 em1 w2,
    PublishToSink envMap r1 p adds sink (h, w) = Some (h1, w1) ∧
    h1 !! p = Some em1 ∧
    metrics em1 = metrics em ∧
    entries_map (properties em1) = entries_map adds ∪ entries_map (properties em) ∧
    (∀ q, metrics <$> h1 !! q = metrics <$> h !! q) ∧
    PublishToSink envMap r2 p None sink (h1, w1) = Some (h1, w2) ∧
    (let written := io_WriteString sink (payload envMap r2 em1)
                                   (fmt_Printf (warnings (metrics em)) w1) in
     w2 = match written.2 with
          | Some e => fmt_Printf ("ERROR: " +:+ GoSyntax e) written.1
          | None => written.1
          end).
Proof.
  intros Hp.
  set (em1 := mkEmbeddedMetric (metrics em)
                (merged_properties (properties em) (range (seed_additional r1) adds))).
  set (written := io_WriteString sink (payload envMap r1 em1)
                                 (fmt_Printf (warnings (metrics em)) w)).
  exists (<[p := em1]> h),
         (match written.2 with
          | Some e => fmt_Printf ("ERROR: " +:+ GoSyntax e) written.1
          | None => written.1
          end), em1.
  eexists. split_and!.
  - by rewrite (PublishToSink_eq _ _ _ _ _ _ _ _ Hp).
  - apply lookup_insert_eq.
  - done.
  - apply merged_properties_range.
  - intros q. destruct (decide (q = p)) as [->|Hq].
    + by rewrite lookup_insert_eq, Hp.
    + by rewrite lookup_insert_ne.
  - erewrite PublishToSink_eq by apply lookup_insert_eq.
    rewrite range_nil_map. cbn [merged_properties foldl].
    rewrite insert_insert_eq.
    replace (mkEmbeddedMetric (metrics em1) (properties em1)) with em1 by done.
    reflexivity.
  - done.
Qed.

Lemma X7_additional_properties_persist_witness :
  sample.heap !! 1%nat = Some sample.wide ∧
  ∃ h1 w1 em1 w2,
    PublishToSink sample.envMap sample.run 1%nat
                  (Some {[ "requestId" := GoString "abc" ]}) caller_writer
                  (sample.heap, sample.quiet) = Some (h1, w1) ∧
    h1 !! 1%nat = Some em1 ∧
    entries_map (properties em1)
    = entries_map (Some {[ "requestId" := GoString "abc" ]})
      ∪ entries_map (properties sample.wide) ∧
    PublishToSink sample.envMap sample.later 1%nat None caller_writer (h1, w1)
    = Some (h1, w2).
Proof.
  assert (sample.heap !! 1%nat = Some sample.wide) as H1 by reflexivity.
  split; [exact H1|].
  destruct (X7_additional_properties_persist sample.envMap sample.run sample.later
              _ sample.quiet _ _ (Some {[ "requestId" := GoString "abc" ]})
              caller_writer H1)
    as (h1 & w1 & em1 & w2 & Ha & Hb & _ & Hc & _ & Hd & _).
  exists h1, w1, em1, w2. split_and!; assumption.
Defined.

Lemma string_app_nil_inv (s t : string) : s +:+ t = "" → t = "".
Proof. destruct s; [done | discriminate]. Qed.

Lemma warning_not_empty n : warning n ≠ "".
Proof. discriminate. Qed.

Lemma warnings_empty_iff ds :
  warnings ds = "" ↔ Forall (λ d, (go_len (Dimensions d) ≤ 9)%nat) ds.
Proof.
  induction ds as [|d ds IH]; [by split; [constructor|]|].
  rewrite warnings_cons, Forall_cons. case_decide as Hd.
  - split; [|intros [? _]; lia].
    intros Hw. destruct (warning _) eqn:Hn; [by apply warning_not_empty in Hn | done].
  - change ("" +:+ warnings ds) with (warnings ds). rewrite IH. split; [|by intros [_ ?]].
    intros ?. split; [lia | done].
Qed.

Lemma string_app_cancel_nil (s t : string) : s +:+ t = s → t = "".
Proof.
  induction s as [|a s IH]; [done|].
  change (String a s +:+ t) with (String a (s +:+ t)). intros Heq.
  injection Heq as Heq. by apply IH.
Qed.

(** X8. The limit of the warning is nine dimensions: a publish call to a
    sink of the caller's that takes the write leaves the standard output
    untouched exactly when no directive of the object has more than nine
    dimensions, and otherwise appends the warnings to it. *)
Theorem X8_warning_limit {W} `{Writer W} envMap r h (w : World W) p em adds h' w' :
  h !! p = Some em →
  PublishToSink envMap r p adds caller_writer (h, w) = Some (h', w') →
  (∀ text, (Write (writer w) text).2 = None) →
  Stdout w' = Stdout w +:+ warnings (metrics em) ∧
  (Stdout w' = Stdout w ↔
   Forall (λ d, (go_len (Dimensions d) ≤ 9)%nat) (metrics em)).
Proof.
  intros Hp Hpub Hok. rewrite (PublishToSink_eq _ _ _ _ _ _ _ _ Hp) in Hpub.
  simpl in Hpub. injection Hpub as <- <-.
  match goal with |- context [Write ?x ?y] =>
    pose proof (Hok y) as Hy; destruct (Write x y) as [x' e'] end.
  simpl in Hy. subst e'. simpl. split; [done|].
  rewrite <- warnings_empty_iff. split.
  - apply string_app_cancel_nil.
  - intros ->. apply string_app_nil_r.
Qed.

Lemma X8_warning_limit_witness :
  sample.heap !! 1%nat = Some sample.wide ∧
  PublishToSink sample.envMap sample.run 1%nat None caller_writer
                (sample.heap, sample.quiet)
  = Some (<[1%nat := sample.wide]> sample.heap,
          mkWorld (warning 10) (mkBuffer (render sample.wide_doc))) ∧
  (∀ text, (Write (writer sample.quiet) text).2 = None) ∧
  Stdout (mkWorld (warning 10) (mkBuffer (render sample.wide_doc)))
  = Stdout sample.quiet +:+ warnings (metrics sample.wide).
Proof.
  assert (sample.heap !! 1%nat = Some sample.wide) as H1 by reflexivity.
  assert (PublishToSink sample.envMap sample.run 1%nat None caller_writer
            (sample.heap, sample.quiet)
          = Some (<[1%nat := sample.wide]> sample.heap,
                  mkWorld (warning 10) (mkBuffer (render sample.wide_doc)))) as H2
    by (vm_compute; reflexivity).
  assert (∀ text, (Write (writer sample.quiet) text).2 = None) as H3
    by (intros text; reflexivity).
  split_and!; [exact H1 | exact H2 | exact H3 |].
  exact (proj1 (X8_warning_limit _ _ _ _ _ _ _ _ _ H1 H2 H3)).
Defined.

(** A directive with exactly nine dimensions draws no warning. *)
Example nine_dimensions_no_warning :
  warnings [mkMetricDirective
              (Some (list_to_map [("d1", "1"); ("d2", "2"); ("d3", "3"); ("d4", "4");
                                  ("d5", "5"); ("d6", "6"); ("d7", "7"); ("d8", "8");
                                  ("d9", "9")]))
              (Some ∅) "Nine"] = "".
Proof. vm_compute. reflexivity. Qed.

(* ===================================================================== *)
(** ** More on the encoded document *)
(* ===================================================================== *)

Lemma last_write_wins_is_Some_iff {V} (base : gmap string V) l k :
  is_Some (last_write_wins base l !! k) ↔ k ∈ l.*1 ∨ is_Some (base !! k).
Proof.
  split.
  - destruct (decide (k ∈ l.*1)) as [|Hk]; [by left|].
    rewrite last_write_wins_lookup_None by done. by right.
  - intros [?|?]; [by apply last_write_wins_is_Some
                  | by apply last_write_wins_is_Some_base].
Qed.

Lemma jsonMap_literal_is_Some envMap k :
  is_Some (jsonMap_literal envMap !! k) ↔ k ∈ reserved_keys.
Proof.
  unfold jsonMap_literal, reserved_keys. split.
  - intros [v Hv]. rewrite !lookup_insert, lookup_empty in Hv.
    destruct (decide ("log_steam_name" = k)) as [<-|?]; [right; left|].
    destruct (decide ("log_group_name" = k)) as [<-|?]; [left | done].
  - rewrite !elem_of_cons, elem_of_nil. intros [->|[->|[]]].
    + rewrite lookup_insert_ne by done. rewrite lookup_insert_eq. eauto.
    + rewrite lookup_insert_eq. eauto.
Qed.

(** X9. The top-level keys of an encoded document are [_aws], the two
    reserved keys, the keys of the property bag and the names of the metrics
    and dimensions of the directives, and nothing else; each key occurs once
    and the keys are in sorted order, whatever the order in which the maps
    were visited. *)
Theorem X9_top_level_keys envMap r em doc :
  MarshalJSON_document envMap r em = Ok doc →
  (∀ k, k ∈ keys doc ↔ k = "_aws" ∨ k ∈ reserved_keys ∨ k ∈ (flat_writes em).*1) ∧
  NoDup (keys doc) ∧
  Sorted String.le (keys doc).
Proof.
  intros Hdoc. split_and!.
  - intros k. destruct (encode_map_keys _ _ Hdoc) as [-> _].
    rewrite MarshalJSON_jsonMap_eq.
    rewrite <- jsonMap_literal_is_Some with (envMap := envMap).
    rewrite (or_comm (is_Some _)), <- last_write_wins_is_Some_iff.
    split.
    + intros ([k' v] & -> & Hin%elem_of_map_to_list)%list_elem_of_fmap. simpl.
      rewrite lookup_insert in Hin. case_decide; [by left | right; eauto].
    + intros Hk.
      assert (is_Some (<["_aws" := GoEmfAWS
                 (emf.mkAWS (elements_of (seed_directives r) (metrics em))
                            (now r ÷ time_Millisecond))]>
                 (last_write_wins (jsonMap_literal envMap) (flat_writes em)) !! k))
        as [v Hv].
      { rewrite lookup_insert. case_decide; [eauto|]. by destruct Hk. }
      apply (list_elem_of_fmap_2' fst _ (k, v)); [|done]. by apply elem_of_map_to_list.
  - by eapply encode_map_keys.
  - by eapply encode_map_Sorted.
Qed.

Lemma X9_top_level_keys_witness :
  MarshalJSON_document sample.envMap sample.run sample.em = Ok sample.doc ∧
  NoDup (keys sample.doc) ∧
  Sorted String.le (keys sample.doc).
Proof.
  assert (MarshalJSON_document sample.envMap sample.run sample.em = Ok sample.doc)
    as H by (vm_compute; reflexivity).
  split; [exact H|].
  exact (proj2 (X9_top_level_keys _ _ _ _ H)).
Defined.

(** X10. The encoding fails exactly when a value that survives the merge of
    the top level, under a key other than [_aws], has no JSON form. A value
    that a later write replaces is never encoded, so it cannot fail the
    record. *)
Theorem X10_encoding_fails_iff envMap r em :
  is_Ok (MarshalJSON envMap r em) = true ↔
  ∀ k v, k ≠ "_aws" →
         last_write_wins (jsonMap_literal envMap) (flat_writes em) !! k = Some v →
         is_Ok (encode v) = true.
Proof.
  unfold MarshalJSON, json_Marshal_map.
  change (encode_map (MarshalJSON_jsonMap envMap r em))
    with (MarshalJSON_document envMap r em).
  split.
  - intros Hok k v Hk Hv.
    destruct (MarshalJSON_document envMap r em) as [doc|] eqn:Hdoc; [|done].
    pose proof (MarshalJSON_document_member _ _ _ _ k Hdoc Hk) as Hm.
    rewrite Hv in Hm. by destruct Hm as (j & -> & _).
  - intros Hall. by destruct (MarshalJSON_document_total envMap r em Hall) as [doc ->].
Qed.

(** A metric whose value has no JSON form under the name of a dimension of
    the same directive: the dimension replaces it and the record encodes. *)
Example masked_value_encodes :
  is_Ok (MarshalJSON sample.envMap sample.run
           (mkEmbeddedMetric
              [mkMetricDirective (Some {[ "k" := "dimension" ]})
                                 (Some {[ "k" := mkMetricValue GoFunc UnitCount ]})
                                 "Masked"]
              (Some ∅))) = true.
Proof. vm_compute. reflexivity. Qed.

(* ===================================================================== *)
(** ** Line feeds *)
(* ===================================================================== *)

Lemma Contains_app s t c : Contains (s +:+ t) c = Contains s c || Contains t c.
Proof.
  induction s as [|a s IH]; [done|].
  change (String a s +:+ t) with (String a (s +:+ t)). simpl.
  by rewrite IH, orb_assoc.
Qed.

Lemma single_line_app s t :
  single_line (s +:+ t) = single_line s && single_line t.
Proof. unfold single_line. by rewrite Contains_app, negb_orb. Qed.

Lemma single_line_cons c s :
  single_line (String c s) = negb (Ascii.eqb c line_feed) && single_line s.
Proof. unfold single_line. simpl. by rewrite negb_orb. Qed.

Lemma hex_digit_not_line_feed n : Ascii.eqb (hex_digit n) line_feed = false.
Proof. do 17 (destruct n as [|n]; [done|]). done. Qed.

Lemma escape_byte_single_line c : single_line (escape_byte c) = true.
Proof.
  unfold escape_byte. cbv zeta.
  destruct (nat_of_ascii c =? 34)%nat; [done|].
  destruct (nat_of_ascii c =? 92)%nat; [done|].
  destruct (nat_of_ascii c =? 10)%nat eqn:Hn; [done|].
  destruct (nat_of_ascii c =? 13)%nat; [done|].
  destruct (nat_of_ascii c =? 9)%nat; [done|].
  destruct (_ || _).
  - unfold escape_u00. cbv zeta.
    rewrite !single_line_cons, !hex_digit_not_line_feed. done.
  - rewrite single_line_cons.
    destruct (Ascii.eqb c line_feed) eqn:Hc; [|done].
    apply Ascii.eqb_eq in Hc. subst c. by vm_compute in Hn.
Qed.

Lemma escape_single_line s : single_line (escape s) = true.
Proof.
  induction s as [|c s IH]; [done|]. simpl.
  by rewrite single_line_app, escape_byte_single_line, IH.
Qed.

Lemma quote_single_line s : single_line (quote s) = true.
Proof.
  unfold quote. rewrite single_line_cons, single_line_app, escape_single_line. done.
Qed.

Lemma pretty_N_char_not_line_feed x : Ascii.eqb (pretty_N_char x) line_feed = false.
Proof. unfold pretty_N_char. by repeat case_match. Qed.

Lemma pretty_N_go_single_line x s :
  single_line s = true → single_line (pretty_N_go x s) = true.
Proof.
  revert s. induction (N.lt_wf_0 x) as [x _ IH]; intros s Hs.
  destruct (decide (x = 0)%N) as [->|Hx]; [by rewrite pretty_N_go_0|].
  rewrite pretty_N_go_step by lia. apply IH.
  - apply N.div_lt; lia.
  - by rewrite single_line_cons, pretty_N_char_not_line_feed.
Qed.

Lemma pretty_N_single_line (x : N) : single_line (pretty x) = true.
Proof.
  unfold pretty, pretty_N. case_decide; [done|]. by apply pretty_N_go_single_line.
Qed.

Lemma pretty_Z_single_line (x : Z) : single_line (pretty x) = true.
Proof.
  destruct x as [|p|p]; [done| |].
  - apply (pretty_N_single_line (Npos p)).
  - change (pretty (Zneg p)) with ("-" +:+ pretty (Npos p)).
    by rewrite single_line_app, pretty_N_single_line.
Qed.

Lemma join_single_line sep l :
  single_line sep = true → Forall (λ s, single_line s = true) l →
  single_line (join sep l) = true.
Proof.
  intros Hsep Hl. destruct Hl as [|x l Hx Hl]; [done|]. simpl.
  revert x Hx. induction Hl as [|y l Hy Hl IH]; intros x Hx; [done|].
  simpl. apply IH. by rewrite !single_line_app, Hx, Hsep, Hy.
Qed.

Lemma render_single_line : ∀ j, single_line (render j) = true.
Proof.
  fix IH 1. intros [| [|] | n | s | items | members]; simpl; try done.
  - apply pretty_Z_single_line.
  - apply quote_single_line.
  - rewrite !single_line_app, join_single_line; [done | done |].
    induction items as [|j items IHl]; constructor; [apply IH | apply IHl].
  - rewrite !single_line_app, join_single_line; [done | done |].
    induction members as [|[k j] members IHl]; constructor; [|apply IHl].
    simpl. by rewrite !single_line_app, quote_single_line, IH.
Qed.

Lemma payload_Ok_single_line envMap r em doc :
  MarshalJSON_document envMap r em = Ok doc →
  single_line (payload envMap r em) = true.
Proof.
  intros Hdoc. rewrite (MarshalJSON_payload _ _ _ _ Hdoc). apply render_single_line.
Qed.

Lemma payload_Err envMap r em e :
  json_Marshal_EmbeddedMetric envMap r em = Err e →
  payload envMap r em = "Error publishing metric: " +:+ Error e.
Proof. unfold payload. by intros ->. Qed.

Lemma warnings_single_line ds : single_line (warnings ds) = true.
Proof.
  induction ds as [|d ds IH]; [done|].
  rewrite warnings_cons, single_line_app, IH. case_decide; [|done].
  unfold warning. rewrite single_line_app, andb_true_r.
  apply andb_true_intro. split; [done|].
  apply (pretty_N_single_line (N.of_nat _)).
Qed.

(** X11. A publish call whose record encodes writes no line feed: the
    record handed to the sink holds none, whatever the values of the
    object, and neither do the warnings, so what [Publish] appends to the
    standard output has no line feed, not at its end either, and the
    records of successive calls follow one another on one line. When the
    encoding fails, the text appended is the warnings and the error line,
    with a line feed exactly when the message of the error has one. *)
Theorem X11_no_line_feed {W} `{Writer W} envMap r h (w : World W) p em adds h' w' :
  h !! p = Some em →
  Publish envMap r p adds (h, w) = Some (h', w') →
  let em' := mkEmbeddedMetric (metrics em)
               (merged_properties (properties em) (range (seed_additional r) adds)) in
  (∀ em0 doc, MarshalJSON_document envMap r em0 = Ok doc →
              single_line (payload envMap r em0) = true) ∧
  single_line (warnings (metrics em)) = true ∧
  (∀ doc, MarshalJSON_document envMap r em' = Ok doc →
     Stdout w' = Stdout w +:+ warnings (metrics em) +:+ render doc ∧
     single_line (warnings (metrics em) +:+ render doc) = true) ∧
  (∀ e, json_Marshal_EmbeddedMetric envMap r em' = Err e →
     let text := warnings (metrics em) +:+ "Error publishing metric: " +:+ Error e in
     Stdout w' = Stdout w +:+ text ∧
     single_line text = single_line (Error e)).
Proof.
  intros Hp Hpub em'. split; [intros; by eapply payload_Ok_single_line|].
  split; [apply warnings_single_line|].
  unfold Publish in Hpub. rewrite (PublishToSink_eq _ _ _ _ _ _ _ _ Hp) in Hpub.
  cbv zeta in Hpub. fold em' in Hpub. injection Hpub as <- <-.
  cbn [io_WriteString snd fst fmt_Printf Stdout]. split.
  - intros doc Hdoc. rewrite (MarshalJSON_payload _ _ _ _ Hdoc). split.
    + apply string_app_assoc.
    + by rewrite single_line_app, warnings_single_line, render_single_line.
  - intros e He. rewrite (payload_Err _ _ _ _ He). cbv zeta. split.
    + apply string_app_assoc.
    + by rewrite !single_line_app, warnings_single_line.
Qed.

Lemma X11_no_line_feed_witness :
  sample.heap !! 1%nat = Some sample.wide ∧
  Publish sample.envMap sample.run 1%nat None (sample.heap, sample.quiet)
  = Some (<[1%nat := sample.wide]> sample.heap,
          mkWorld (warning 10 +:+ render sample.wide_doc) (mkBuffer "")) ∧
  single_line (warnings (metrics sample.wide)) = true ∧
  single_line (warnings (metrics sample.wide) +:+ render sample.wide_doc) = true.
Proof.
  assert (sample.heap !! 1%nat = Some sample.wide) as H1 by reflexivity.
  assert (Publish sample.envMap sample.run 1%nat None (sample.heap, sample.quiet)
          = Some (<[1%nat := sample.wide]> sample.heap,
                  mkWorld (warning 10 +:+ render sample.wide_doc) (mkBuffer "")))
    as H2 by (vm_compute; reflexivity).
  split_and!; [exact H1 | exact H2 | |].
  - exact (proj1 (proj2 (X11_no_line_feed _ _ _ _ _ _ _ _ _ H1 H2))).
  - refine (proj2 (proj1 (proj2 (proj2 (X11_no_line_feed _ _ _ _ _ _ _ _ _ H1 H2)))
                     sample.wide_doc _)).
    vm_compute. reflexivity.
Defined.

(** A line feed in a property value leaves the record as a backslash and
    the letter n. *)
Example line_feed_escaped :
  render (JString (String line_feed "")) = quote (String line_feed "") ∧
  escape (String line_feed "") = String backslash "n".
Proof. split; reflexivity. Qed.

(* ===================================================================== *)
(** ** The icon of a resource *)
(* ===================================================================== *)

Lemma iconMappings_keys k :
  is_Some (iconMappings !! k) →
  k ∈ ["kinesis"; "s3"; "sqs"; "sns"; "codecommit"; "cloudwatch"; "dynamodb"].
Proof.
  intros [v Hv]. apply elem_of_map_to_list in Hv.
  apply (list_elem_of_fmap_2 fst) in Hv. change ((k, v).1) with k in Hv.
  replace ((map_to_list iconMappings).*1)
    with ["kinesis"; "s3"; "sqs"; "sns"; "codecommit"; "cloudwatch"; "dynamodb"]
    in Hv by (vm_compute; reflexivity).
  exact Hv.
Qed.

Lemma iconMappings_not_general k path :
  iconMappings !! k = Some path → path ≠ generalIcon.
Proof.
  intros Hk. pose proof (iconMappings_keys k (mk_is_Some _ _ Hk)) as Hin.
  rewrite !elem_of_cons, elem_of_nil in Hin.
  destruct Hin as [->|[->|[->|[->|[->|[->|[->|[]]]]]]]];
    vm_compute in Hk; injection Hk as <-;
    apply String.eqb_neq; vm_compute; reflexivity.
Qed.

Lemma iconForAWSResource_find ToLower seed rawEmitter :
  let text := ToLower (match json_Marshal rawEmitter with Ok b => b | Err _ => "" end) in
  (iconForAWSResource ToLower seed rawEmitter = generalIcon ∧
   ∀ k, is_Some (iconMappings !! k) → strings_Contains text k = false) ∨
  (∃ k, iconMappings !! k = Some (iconForAWSResource ToLower seed rawEmitter) ∧
        strings_Contains text k = true).
Proof.
  intros text. unfold iconForAWSResource. fold text.
  destruct (list_find _ _) as [[i [k path]]|] eqn:Hf.
  - right. apply list_find_Some in Hf as (Hi & Hc & _).
    exists k. split; [|done].
    apply list_elem_of_lookup_2 in Hi.
    rewrite (range_Permutation seed (Some iconMappings)) in Hi.
    by apply elem_of_map_to_list in Hi.
  - left. split; [done|]. intros k [path Hk].
    apply list_find_None in Hf. rewrite Forall_forall in Hf.
    destruct (strings_Contains text k) eqn:Hc; [|done].
    exfalso. apply (Hf (k, path)); [|done].
    rewrite (range_Permutation seed (Some iconMappings)).
    by apply elem_of_map_to_list.
Qed.

(** X12. The icon of a resource is the general icon exactly when none of
    the seven service names occurs in the lower-cased JSON text of the
    emitter, and otherwise the icon of a service name that occurs in it. A
    value that does not marshal is looked up as the lower-cased empty
    text. *)
Theorem X12_icon_of_resource ToLower seed rawEmitter :
  let text := ToLower (match json_Marshal rawEmitter with Ok b => b | Err _ => "" end) in
  let icon := iconForAWSResource ToLower seed rawEmitter in
  (icon = generalIcon ↔
   ∀ k, is_Some (iconMappings !! k) → strings_Contains text k = false) ∧
  (icon ≠ generalIcon →
   ∃ k, iconMappings !! k = Some icon ∧ strings_Contains text k = true) ∧
  (∀ e, json_Marshal rawEmitter = Err e → text = ToLower "").
Proof.
  intros text icon.
  assert (∀ e, json_Marshal rawEmitter = Err e → text = ToLower "") as Herr.
  { intros e He. unfold text. by rewrite He. }
  destruct (iconForAWSResource_find ToLower seed rawEmitter) as [[Hg Hn]|(k & Hk & Hc)].
  - split_and!; [done | done | done].
  - split_and!; [|by eauto|done]. split.
    + intros Hg. unfold icon in Hg. rewrite Hg in Hk.
      by apply iconMappings_not_general in Hk.
    + intros Hn. unfold text in Hn. rewrite Hn in Hc by eauto. done.
Qed.

(** X13. When exactly one service name occurs in the text, the icon is the
    icon of that service for every order in which the loop visits the table.
    When several occur, the icon depends on that order: for each service
    name that occurs there is an order for which the icon is its icon. *)
Theorem X13_icon_order ToLower rawEmitter k path :
  let text := ToLower (match json_Marshal rawEmitter with Ok b => b | Err _ => "" end) in
  iconMappings !! k = Some path → strings_Contains text k = true →
  (∃ seed, iconForAWSResource ToLower seed rawEmitter = path) ∧
  ((∀ k', k' ≠ k → is_Some (iconMappings !! k') → strings_Contains text k' = false) →
   ∀ seed, iconForAWSResource ToLower seed rawEmitter = path).
Proof.
  intros text Hk Hc. split.
  - assert ((k, path) ∈ map_to_list iconMappings) as Hin
      by by apply elem_of_map_to_list.
    apply list_elem_of_split in Hin as (l1 & l2 & Hl).
    destruct (pick_complete (map_to_list iconMappings) ((k, path) :: l1 ++ l2))
      as [seed Hs].
    { rewrite Hl. by rewrite Permutation_middle. }
    exists seed. unfold iconForAWSResource, range, go_entries.
    cbn [from_option]. rewrite Hs. fold text.
    cbn [list_find]. rewrite decide_True by done. done.
  - intros Hothers seed.
    destruct (iconForAWSResource_find ToLower seed rawEmitter)
      as [[_ Hn]|(k' & Hk' & Hc')].
    + unfold text in Hc. rewrite Hn in Hc by eauto. done.
    + destruct (decide (k' = k)) as [->|Hne]; [congruence|].
      unfold text in Hothers. rewrite Hothers in Hc' by eauto. done.
Qed.

Lemma X13_icon_order_witness :
  iconMappings !! "sqs"
  = Some "AWS-Architecture-Icons_SVG_20200131/SVG Light/Application Integration/Amazon-Simple-Queue-Service-SQS_light-bg.svg" ∧
  strings_Contains
    (ToLower_ascii (match json_Marshal (GoString "arn:aws:SQS:us-west-2:123:jobs") with
                    | Ok b => b
                    | Err _ => ""
                    end)) "sqs" = true ∧
  ∀ seed, iconForAWSResource ToLower_ascii seed (GoString "arn:aws:SQS:us-west-2:123:jobs")
          = "AWS-Architecture-Icons_SVG_20200131/SVG Light/Application Integration/Amazon-Simple-Queue-Service-SQS_light-bg.svg".
Proof.
  assert (iconMappings !! "sqs"
          = Some "AWS-Architecture-Icons_SVG_20200131/SVG Light/Application Integration/Amazon-Simple-Queue-Service-SQS_light-bg.svg")
    as H1 by (vm_compute; reflexivity).
  assert (strings_Contains
            (ToLower_ascii (match json_Marshal (GoString "arn:aws:SQS:us-west-2:123:jobs") with
                            | Ok b => b
                            | Err _ => ""
                            end)) "sqs" = true) as H2 by (vm_compute; reflexivity).
  split_and!; [exact H1 | exact H2 |].
  apply (proj2 (X13_icon_order ToLower_ascii (GoString "arn:aws:SQS:us-west-2:123:jobs")
                  "sqs" _ H1 H2)).
  intros k' Hne Hk'. apply iconMappings_keys in Hk'.
  rewrite !elem_of_cons, elem_of_nil in Hk'.
  destruct Hk' as [->|[->|[->|[->|[->|[->|[->|[]]]]]]]];
    first [by destruct Hne | vm_compute; reflexivity].
Defined.

(** A text with two service names: either icon, by the order of the loop. *)
Example icon_of_two_services :
  String.eqb (iconForAWSResource ToLower_ascii [2%nat] (GoString "sqs-to-sns"))
             (iconForAWSResource ToLower_ascii [3%nat] (GoString "sqs-to-sns"))
  = false.
Proof. vm_compute. reflexivity. Qed.

(* ===================================================================== *)
(** ** The embedded resources *)
(* ===================================================================== *)

Lemma Split_last s sep t :
  last (Split s sep) = Some t →
  Contains t sep = false ∧ (s = t ∨ ∃ pre, s = pre +:+ String sep t).
Proof.
  revert t. induction s as [|c s IH]; intros t; simpl.
  - intros [= <-]. by split; [|left].
  - destruct (Ascii.eqb c sep) eqn:Hc.
    + apply Ascii.eqb_eq in Hc as ->.
      pose proof (Split_not_nil s sep) as Hne.
      destruct (Split s sep) as [|p ps] eqn:Hs; [done|].
      change (last ("" :: p :: ps)) with (last (p :: ps)). intros Hl.
      destruct (IH t Hl) as [Ht [->|[pre ->]]]; (split; [done|]); right.
      * by exists "".
      * by exists (String sep pre).
    + destruct (Split s sep) as [|p [|q ps]] eqn:Hs.
      * intros [= <-]. by apply Split_not_nil in Hs.
      * intros [= <-]. apply Split_one in Hs as [-> Hp].
        split; [|by left]. simpl. by rewrite Hc, Hp.
      * change (last (String c p :: q :: ps)) with (last (p :: q :: ps)). intros Hl.
        destruct (IH t Hl) as [Ht [->|[pre ->]]]; (split; [done|]).
        -- rewrite Split_no_sep in Hs by done. done.
        -- right. by exists (String c pre).
Qed.

Lemma TrimLeft_cut s cut : TrimLeft (String cut s) cut = TrimLeft s cut.
Proof. simpl. by rewrite Ascii.eqb_refl. Qed.

(** X14. A resource is looked up under [/resources/describe/] followed by
    the key without its leading slashes, so a key with leading slashes names
    the same resource as the key without. The resource returned holds the
    data of that path and, as its name, the part of the path after the last
    slash, which holds no slash; nil is returned exactly when the embedded
    file system has no such path. Each call logs one entry. *)
Theorem X14_templateResourceForKey escFSString resourceKeyName :
  let resourcePath := "/resources/describe/" +:+ TrimLeft resourceKeyName "/" in
  let result := templateResourceForKey escFSString resourceKeyName in
  (∀ r, result.1 = Some r →
        escFSString resourcePath = Some (Data r) ∧
        Contains (KeyName r) "/" = false ∧
        ∃ dir, resourcePath = dir +:+ String "/" (KeyName r)) ∧
  (result.1 = None ↔ escFSString resourcePath = None) ∧
  templateResourceForKey escFSString (String "/" resourceKeyName) = result ∧
  length result.2 = 1%nat.
Proof.
  intros resourcePath result.
  assert (Contains (default "" (last (Split resourcePath "/"))) "/" = false ∧
          ∃ dir, resourcePath
                 = dir +:+ String "/" (default "" (last (Split resourcePath "/"))))
    as Hname.
  { pose proof (Split_not_nil resourcePath "/") as Hne.
    destruct (last (Split resourcePath "/")) as [t|] eqn:Hl.
    - destruct (Split_last _ _ _ Hl) as [Ht [Heq|[dir Hdir]]].
      + exfalso. rewrite <- Heq in Ht. done.
      + split; [done | by exists dir].
    - by apply last_None in Hl. }
  unfold result, templateResourceForKey.
  rewrite TrimLeft_cut. cbv zeta. fold resourcePath.
  set (keyName := default "" (last (Split resourcePath "/"))) in *.
  destruct (escFSString resourcePath) as [data|] eqn:Hfs; cbn [fst snd length].
  - split_and!; [|done|done|done]. intros r Hr. injection Hr as <-.
    cbn [KeyName Data]. by destruct Hname.
  - split_and!; done.
Qed.

Lemma templateResourcesForKeys_foldl escFSString acc keys :
  (foldl (templateResourcesForKeys_step escFSString) acc keys).1
  = acc.1 ++ omap (λ k, (templateResourceForKey escFSString k).1) keys ∧
  length (foldl (templateResourcesForKeys_step escFSString) acc keys).2
  = (length acc.2 + length keys)%nat.
Proof.
  revert acc. induction keys as [|k keys IH]; intros acc; simpl.
  - by rewrite app_nil_r, Nat.add_0_r.
  - destruct (IH (templateResourcesForKeys_step escFSString acc k)) as [-> ->].
    unfold templateResourcesForKeys_step.
    assert (length (templateResourceForKey escFSString k).2 = 1%nat) as Hlog.
    { unfold templateResourceForKey. by destruct (escFSString _). }
    destruct (templateResourceForKey escFSString k) as [[r|] logged]; simpl in *.
    + rewrite <- app_assoc, length_app, Hlog. split; [done | lia].
    + rewrite length_app, Hlog. split; [done | lia].
Qed.

Lemma omap_length_le {A B} (f : A → option B) l :
  (length (omap f l) ≤ length l)%nat.
Proof.
  induction l as [|x l IH]; [done|]. csimpl. destruct (f x); simpl; lia.
Qed.

(** X15. The resources of a list of keys come in the order of the keys; a
    key whose resource is missing is left out without an error, so there
    are at most as many resources as keys, and one entry is logged per
    key. *)
Theorem X15_templateResourcesForKeys escFSString resourceKeyNames :
  (templateResourcesForKeys escFSString resourceKeyNames).1
  = omap (λ k, (templateResourceForKey escFSString k).1) resourceKeyNames ∧
  (length (templateResourcesForKeys escFSString resourceKeyNames).1
   ≤ length resourceKeyNames)%nat ∧
  length (templateResourcesForKeys escFSString resourceKeyNames).2
  = length resourceKeyNames.
Proof.
  unfold templateResourcesForKeys.
  destruct (templateResourcesForKeys_foldl escFSString ([], []) resourceKeyNames)
    as [H1 H2].
  simpl in H1, H2. rewrite H1, H2. split_and!; [done | | done].
  apply omap_length_le.
Qed.

(** Two keys of the describe page, the second one missing from the embedded
    files. *)
Example resources_for_two_keys :
  let files := λ path, if String.eqb path "/resources/describe/sparta.js"
                       then Some "init();" else None in
  (templateResourcesForKeys files ["/sparta.js"; "popper/popper.min.js"]).1
  = [mkTemplateResource "sparta.js" "init();"].
Proof. vm_compute. reflexivity. Qed.
